(** * find4me: the in-memory entity store, the conversation aggregator
      and the guess handler, embedded from [server/storage.ts],
      [shared/schema.ts] and [server/routes.ts]. *)

From Stdlib Require Import ZArith List String Ascii Bool Lia.
From Stdlib Require Import Permutation Sorted.
Import ListNotations.
Open Scope Z_scope.

(** ** The JavaScript built-ins the server relies on *)

Module Js.

(** A nullable boolean column as it exists at run time: the property may
    be missing ([Undefined]), [null], or a boolean. *)
Inductive flag : Type :=
| Undefined
| Null
| Bool (b : bool).

(** Truthiness, as used by [!message.read]. *)
Definition truthy (f : flag) : bool :=
  match f with
  | Bool true => true
  | _ => false
  end.

(** A JSON value of a request body, as far as the schemas look at it. *)
Inductive value : Type :=
| VUndefined
| VNull
| VBool (b : bool)
| VNumber (z : Z)
| VString (s : string).

(** A string is held as the bytes of its UTF-8 form, so [===] on strings is
    equality of the byte sequences. [String.prototype.toLowerCase] itself is
    the platform's: the definitions that call it take it as [toLowerCase].
    The two functions below only say what it does to text in ASCII: the
    letters A-Z go to a-z and every other character stays. *)
Definition asciiLowerChar (c : ascii) : ascii :=
  let n := N_of_ascii c in
  if ((65 <=? n) && (n <=? 90))%N then ascii_of_N (n + 32) else c.

Fixpoint asciiLowerCase (s : string) : string :=
  match s with
  | EmptyString => EmptyString
  | String c r => String (asciiLowerChar c) (asciiLowerCase r)
  end.

Fixpoint isAscii (s : string) : bool :=
  match s with
  | EmptyString => true
  | String c r => (N_of_ascii c <? 128)%N && isAscii r
  end.

(** [Array.prototype.sort(compareFn)]: a stable sort; [compareFn a b <= 0]
    keeps [a] before [b]. *)
Section Sort.
Context {A : Type} (compareFn : A -> A -> Z).

Fixpoint insert (x : A) (l : list A) : list A :=
  match l with
  | [] => [x]
  | y :: r => if compareFn x y <=? 0 then x :: y :: r else y :: insert x r
  end.

Fixpoint sort (l : list A) : list A :=
  match l with
  | [] => []
  | x :: r => insert x (sort r)
  end.
End Sort.

End Js.

(** [Map<number, V>]: entries in insertion order; [set] on a present key
    replaces the value in place, on an absent key it appends. *)
Module JsMap.

Definition t (V : Type) : Type := list (Z * V).

Definition empty {V} : t V := [].

Fixpoint get {V} (k : Z) (m : t V) : option V :=
  match m with
  | [] => None
  | (k', v) :: r => if k' =? k then Some v else get k r
  end.

Fixpoint set {V} (k : Z) (v : V) (m : t V) : t V :=
  match m with
  | [] => [(k, v)]
  | (k', v') :: r => if k' =? k then (k, v) :: r else (k', v') :: set k v r
  end.

Definition keys {V} (m : t V) : list Z := map fst m.
Definition values {V} (m : t V) : list V := map snd m.
Definition entries {V} (m : t V) : list (Z * V) := m.

(** What makes such a list a [Map]: no key is held twice. *)
Definition wellFormed {V} (m : t V) : Prop := NoDup (keys m).

End JsMap.

(** [Set<number>]: members in insertion order. *)
Module JsSet.

Definition t : Type := list Z.

Definition has (k : Z) (s : t) : bool := existsb (Z.eqb k) s.

Definition add (k : Z) (s : t) : t := if has k s then s else s ++ [k].

End JsSet.

(** ** shared/schema.ts *)

Module User.
Record t : Type := mk {
  id : Z;
  username : string;
  password : string;
  realName : string;
  fakeName : string;
  age : Z;
  school : string;
  classInfo : string;
  avatarType : string;
  avatarId : string;
  lastActive : Z
}.

(** [user.lastActive = d] *)
Definition set_lastActive (d : Z) (u : t) : t :=
  mk (id u) (username u) (password u) (realName u) (fakeName u) (age u)
     (school u) (classInfo u) (avatarType u) (avatarId u) d.
End User.

Module InsertUser.
Record t : Type := mk {
  username : string;
  password : string;
  realName : string;
  fakeName : string;
  age : Z;
  school : string;
  classInfo : string;
  avatarType : string;
  avatarId : string
}.
End InsertUser.

Module Message.
Record t : Type := mk {
  id : Z;
  senderId : Z;
  receiverId : Z;
  content : string;
  timestamp : Z;
  read : Js.flag
}.

(** [message.read = f] *)
Definition set_read (f : Js.flag) (m : t) : t :=
  mk (id m) (senderId m) (receiverId m) (content m) (timestamp m) f.
End Message.

(** [insertMessageSchema]: [id] and [timestamp] omitted; [read] has a
    column default, so the draft may leave it out ([Js.Undefined]). *)
Module InsertMessage.
Record t : Type := mk {
  senderId : Z;
  receiverId : Z;
  content : string;
  read : Js.flag
}.
End InsertMessage.

Module Guess.
Record t : Type := mk {
  id : Z;
  guesserId : Z;
  targetId : Z;
  guessedName : string;
  correct : bool;
  timestamp : Z
}.
End Guess.

Module InsertGuess.
Record t : Type := mk {
  guesserId : Z;
  targetId : Z;
  guessedName : string;
  correct : bool
}.
End InsertGuess.

Module Conversation.
Record t : Type := mk {
  userId : Z;
  fakeName : string;
  avatarType : string;
  avatarId : string;
  lastMessage : option string;
  lastMessageTime : option Z;
  unreadCount : Z
}.
End Conversation.

(** ** server/storage.ts: [MemStorage] *)

Record MemStorage : Type := mkStorage {
  users : JsMap.t User.t;
  messages : JsMap.t Message.t;
  guesses : JsMap.t Guess.t;
  userCurrentId : Z;
  messageCurrentId : Z;
  guessCurrentId : Z
}.

(** [new MemStorage()] *)
Definition constructor : MemStorage :=
  mkStorage JsMap.empty JsMap.empty JsMap.empty 1 1 1.

(** The methods run against the one [storage] object: a computation takes
    the store and gives back its result and the store it leaves. No method
    has a [throw], and [Map.get] answers undefined for a key it does not
    hold, so there is no error outcome to carry: absence is [None]. *)
Definition M (A : Type) : Type := MemStorage -> A * MemStorage.

Definition ret {A} (a : A) : M A := fun s => (a, s).

Definition bind {A B} (c : M A) (k : A -> M B) : M B :=
  fun s => let (a, s') := c s in k a s'.

Definition gets {A} (f : MemStorage -> A) : M A := fun s => (f s, s).

Definition modify (f : MemStorage -> MemStorage) : M unit := fun s => (tt, f s).

Declare Scope storage_scope.
Delimit Scope storage_scope with storage.
Notation "x <- c ;; k" := (bind c (fun x => k))
  (at level 61, c at next level, right associativity) : storage_scope.
Notation "c ;; k" := (bind c (fun _ => k))
  (at level 61, right associativity) : storage_scope.
Open Scope storage_scope.

(** [for (const x of xs) body(x)] *)
Fixpoint forOf {A} (xs : list A) (body : A -> M unit) : M unit :=
  match xs with
  | [] => ret tt
  | x :: r => body x ;; forOf r body
  end.

Definition result {A} (c : M A) (s : MemStorage) : A := fst (c s).
Definition after {A} (c : M A) (s : MemStorage) : MemStorage := snd (c s).

Definition with_users (f : JsMap.t User.t -> JsMap.t User.t) (s : MemStorage) :=
  mkStorage (f (users s)) (messages s) (guesses s)
            (userCurrentId s) (messageCurrentId s) (guessCurrentId s).

Definition with_messages (f : JsMap.t Message.t -> JsMap.t Message.t) (s : MemStorage) :=
  mkStorage (users s) (f (messages s)) (guesses s)
            (userCurrentId s) (messageCurrentId s) (guessCurrentId s).

Definition with_guesses (f : JsMap.t Guess.t -> JsMap.t Guess.t) (s : MemStorage) :=
  mkStorage (users s) (messages s) (f (guesses s))
            (userCurrentId s) (messageCurrentId s) (guessCurrentId s).

(** [this.userCurrentId++] and its siblings: the old value is the result. *)
Definition nextUserId : M Z :=
  fun s => (userCurrentId s,
            mkStorage (users s) (messages s) (guesses s)
                      (userCurrentId s + 1) (messageCurrentId s) (guessCurrentId s)).

Definition nextMessageId : M Z :=
  fun s => (messageCurrentId s,
            mkStorage (users s) (messages s) (guesses s)
                      (userCurrentId s) (messageCurrentId s + 1) (guessCurrentId s)).

Definition nextGuessId : M Z :=
  fun s => (guessCurrentId s,
            mkStorage (users s) (messages s) (guesses s)
                      (userCurrentId s) (messageCurrentId s) (guessCurrentId s + 1)).

(** *** User operations *)

Definition getUser (id : Z) : M (option User.t) :=
  gets (fun s => JsMap.get id (users s)).

Section Lookups.

(** [String.prototype.toLowerCase] *)
Variable toLowerCase : string -> string.

Definition getUserByRealName (realName : string) : M (option User.t) :=
  gets (fun s =>
    find (fun user => String.eqb (toLowerCase (User.realName user))
                                 (toLowerCase realName))
         (JsMap.values (users s))).

Definition getUserByUsername (username : string) : M (option User.t) :=
  gets (fun s =>
    find (fun user => String.eqb (toLowerCase (User.username user))
                                 (toLowerCase username))
         (JsMap.values (users s))).

End Lookups.

(** [now] is the value of [new Date()] at the call. *)
Definition createUser (now : Z) (insertUser : InsertUser.t) : M User.t :=
  id <- nextUserId ;;
  let lastActive := now in
  let user :=
    User.mk id (InsertUser.username insertUser) (InsertUser.password insertUser)
      (InsertUser.realName insertUser) (InsertUser.fakeName insertUser)
      (InsertUser.age insertUser) (InsertUser.school insertUser)
      (InsertUser.classInfo insertUser) (InsertUser.avatarType insertUser)
      (InsertUser.avatarId insertUser) lastActive in
  modify (with_users (JsMap.set id user)) ;;
  ret user.

Definition updateUserLastActive (now : Z) (id : Z) : M unit :=
  user <- getUser id ;;
  match user with
  | Some user =>
      modify (with_users (JsMap.set id (User.set_lastActive now user)))
  | None => ret tt
  end.

Definition getAllUsers : M (list User.t) :=
  gets (fun s => JsMap.values (users s)).

(** *** Message operations *)

Definition createMessage (now : Z) (insertMessage : InsertMessage.t) : M Message.t :=
  id <- nextMessageId ;;
  let timestamp := now in
  let message :=
    Message.mk id (InsertMessage.senderId insertMessage)
      (InsertMessage.receiverId insertMessage)
      (InsertMessage.content insertMessage) timestamp
      (InsertMessage.read insertMessage) in
  modify (with_messages (JsMap.set id message)) ;;
  ret message.

(** The filter of [getMessagesBetweenUsers] (and of the aggregator). *)
Definition between (userId1 userId2 : Z) (message : Message.t) : bool :=
  ((Message.senderId message =? userId1) && (Message.receiverId message =? userId2))
  || ((Message.senderId message =? userId2) && (Message.receiverId message =? userId1)).

Definition byTimestampAsc (a b : Message.t) : Z :=
  Message.timestamp a - Message.timestamp b.

Definition byTimestampDesc (a b : Message.t) : Z :=
  Message.timestamp b - Message.timestamp a.

Definition getMessagesBetweenUsers (userId1 userId2 : Z) : M (list Message.t) :=
  gets (fun s =>
    Js.sort byTimestampAsc
      (filter (between userId1 userId2) (JsMap.values (messages s)))).

Definition unreadFor (userId : Z) (message : Message.t) : bool :=
  (Message.receiverId message =? userId) && negb (Js.truthy (Message.read message)).

Definition getUnreadMessagesCount (userId : Z) : M Z :=
  gets (fun s =>
    Z.of_nat (List.length (filter (unreadFor userId) (JsMap.values (messages s))))).

(** The condition of the loop of [markMessagesAsRead]. *)
Definition unreadFromTo (senderId receiverId : Z) (message : Message.t) : bool :=
  (Message.senderId message =? senderId)
  && (Message.receiverId message =? receiverId)
  && negb (Js.truthy (Message.read message)).

(** The loop walks the entries of the map; its body only re-sets the key it
    is visiting, which leaves every entry in its place. *)
Definition markMessagesAsRead (senderId receiverId : Z) : M unit :=
  entries <- gets (fun s => JsMap.entries (messages s)) ;;
  forOf entries (fun '(id, message) =>
    if unreadFromTo senderId receiverId message
    then modify (with_messages (JsMap.set id (Message.set_read (Js.Bool true) message)))
    else ret tt).

(** *** Guess operations *)

Definition createGuess (now : Z) (insertGuess : InsertGuess.t) : M Guess.t :=
  id <- nextGuessId ;;
  let timestamp := now in
  let guess :=
    Guess.mk id (InsertGuess.guesserId insertGuess) (InsertGuess.targetId insertGuess)
      (InsertGuess.guessedName insertGuess) (InsertGuess.correct insertGuess)
      timestamp in
  modify (with_guesses (JsMap.set id guess)) ;;
  ret guess.

Definition byGuessTimestampDesc (a b : Guess.t) : Z :=
  Guess.timestamp b - Guess.timestamp a.

Definition getGuessesForUser (userId : Z) : M (list Guess.t) :=
  gets (fun s =>
    Js.sort byGuessTimestampDesc
      (filter (fun guess => (Guess.guesserId guess =? userId)
                            || (Guess.targetId guess =? userId))
              (JsMap.values (guesses s)))).

(** *** Conversation operations *)

(** The [forEach] that collects [interactedUserIds]. *)
Definition interacted (userId : Z) (allMessages : list Message.t) : JsSet.t :=
  fold_left
    (fun ids message =>
       if Message.senderId message =? userId
       then JsSet.add (Message.receiverId message) ids
       else if Message.receiverId message =? userId
            then JsSet.add (Message.senderId message) ids
            else ids)
    allMessages [].

(** The body of the loop over [interactedUserIds], after the user lookup. *)
Definition conversationWith (userId : Z) (allMessages : list Message.t)
    (otherUserId : Z) (otherUser : User.t) : Conversation.t :=
  let conversationMessages :=
    Js.sort byTimestampDesc (filter (between userId otherUserId) allMessages) in
  let lastMessage := hd_error conversationMessages in
  let unreadCount :=
    Z.of_nat (List.length (filter (unreadFromTo otherUserId userId) conversationMessages)) in
  Conversation.mk (User.id otherUser) (User.fakeName otherUser)
    (User.avatarType otherUser) (User.avatarId otherUser)
    (option_map Message.content lastMessage)
    (option_map Message.timestamp lastMessage)
    unreadCount.

Fixpoint buildConversations (userId : Z) (allMessages : list Message.t)
    (ids : list Z) (conversations : list Conversation.t) : M (list Conversation.t) :=
  match ids with
  | [] => ret conversations
  | otherUserId :: rest =>
      otherUser <- getUser otherUserId ;;
      match otherUser with
      | None => buildConversations userId allMessages rest conversations
      | Some otherUser =>
          buildConversations userId allMessages rest
            (conversations ++ [conversationWith userId allMessages otherUserId otherUser])
      end
  end.

(** The comparator of the final sort. A [Date] is always truthy, so
    [!a.lastMessageTime] holds exactly when the field is undefined. *)
Definition byLastMessageTime (a b : Conversation.t) : Z :=
  match Conversation.lastMessageTime a, Conversation.lastMessageTime b with
  | None, None => 0
  | None, Some _ => 1
  | Some _, None => -1
  | Some ta, Some tb => tb - ta
  end.

Definition getConversationsForUser (userId : Z) : M (list Conversation.t) :=
  allMessages <- gets (fun s => JsMap.values (messages s)) ;;
  let interactedUserIds := interacted userId allMessages in
  conversations <- buildConversations userId allMessages interactedUserIds [] ;;
  ret (Js.sort byLastMessageTime conversations).

(** ** server/routes.ts *)

Module Routes.

(** A JSON object of a request: its properties; reading a property that is
    not there gives undefined. *)
Definition object : Type := list (string * Js.value).

Definition prop (name : string) (o : object) : Js.value :=
  match find (fun kv => String.eqb (fst kv) name) o with
  | Some kv => snd kv
  | None => Js.VUndefined
  end.

(** [{...o, name}]: the property given last wins. *)
Definition spread (o : object) (name : string) (v : Js.value) : object :=
  (name, v) :: o.

(** A request as the handlers see it: [user] is [req.user.id] when
    [req.isAuthenticated()], [body] is [req.body]. *)
Record Request : Type := mkRequest {
  user : option Z;
  body : object
}.

(** What [res.status(n).json(...)] sends. [JSON.stringify] drops a property
    whose value is undefined, so [targetRealName] is in the body exactly
    when it is [Some]. *)
Inductive Json : Type :=
| ErrorMessage (message : string)
| InvalidData
| StoredMessage (message : Message.t)
| GuessResult (guess : Guess.t) (targetRealName : option string).

Record Response : Type := mkResponse {
  status : Z;
  json : Json
}.

(** [insertGuessSchema.parse]: every column but [id] and [timestamp] is
    required; [None] stands for the [ZodError]. *)
Definition parseInsertGuess (o : object) : option InsertGuess.t :=
  match prop "guesserId" o, prop "targetId" o, prop "guessedName" o, prop "correct" o with
  | Js.VNumber guesserId, Js.VNumber targetId, Js.VString guessedName, Js.VBool correct =>
      Some (InsertGuess.mk guesserId targetId guessedName correct)
  | _, _, _, _ => None
  end.

(** [insertMessageSchema.parse]: [read] is nullable and has a default, so it
    may be a boolean, null or missing. *)
Definition parseInsertMessage (o : object) : option InsertMessage.t :=
  match prop "senderId" o, prop "receiverId" o, prop "content" o with
  | Js.VNumber senderId, Js.VNumber receiverId, Js.VString content =>
      match prop "read" o with
      | Js.VUndefined => Some (InsertMessage.mk senderId receiverId content Js.Undefined)
      | Js.VNull => Some (InsertMessage.mk senderId receiverId content Js.Null)
      | Js.VBool b => Some (InsertMessage.mk senderId receiverId content (Js.Bool b))
      | _ => None
      end
  | _, _, _ => None
  end.

Section Handlers.

(** [filterMessage] of [client/src/lib/filters]: the content filter, whatever
    it does to the text. *)
Variable filterMessage : string -> string.

(** [app.post("/api/messages", requireAuth, ...)] *)
Definition postMessage (now : Z) (req : Request) : M Response :=
  match user req with
  | None => ret (mkResponse 401 (ErrorMessage "Unauthorized"))
  | Some senderId =>
      match parseInsertMessage (spread (body req) "senderId" (Js.VNumber senderId)) with
      | None => ret (mkResponse 400 InvalidData)
      | Some parsed =>
          let receiverId := InsertMessage.receiverId parsed in
          let content := InsertMessage.content parsed in
          let filteredContent := filterMessage content in
          message <- createMessage now
                       (InsertMessage.mk senderId receiverId filteredContent
                                         (Js.Bool false)) ;;
          ret (mkResponse 201 (StoredMessage message))
      end
  end.

End Handlers.

Section GuessHandler.

(** [String.prototype.toLowerCase] *)
Variable toLowerCase : string -> string.

(** [app.post("/api/guess", requireAuth, ...)] *)
Definition postGuess (now : Z) (req : Request) : M Response :=
  match user req with
  | None => ret (mkResponse 401 (ErrorMessage "Unauthorized"))
  | Some guesserId =>
      match parseInsertGuess (spread (body req) "guesserId" (Js.VNumber guesserId)) with
      | None => ret (mkResponse 400 InvalidData)
      | Some parsed =>
          let targetId := InsertGuess.targetId parsed in
          let guessedName := InsertGuess.guessedName parsed in
          targetUser <- getUser targetId ;;
          match targetUser with
          | None => ret (mkResponse 404 (ErrorMessage "Target user not found"))
          | Some targetUser =>
              let correct :=
                String.eqb (toLowerCase (User.realName targetUser))
                           (toLowerCase guessedName) in
              guess <- createGuess now
                         (InsertGuess.mk guesserId targetId guessedName correct) ;;
              ret (mkResponse 201
                     (GuessResult guess
                        (if correct then Some (User.realName targetUser) else None)))
          end
      end
  end.

End GuessHandler.

End Routes.

(** ** Comparing names

    What is known of [toLowerCase] whatever the platform: on text in ASCII
    it lowers the letters A-Z and nothing else. *)
Definition lowersAscii (toLowerCase : string -> string) : Prop :=
  forall s, Js.isAscii s = true -> toLowerCase s = Js.asciiLowerCase s.

(** For names written in ASCII only: two characters are the same letter
    when they are equal or one is the capital (A-Z) of the other, and two
    names agree up to case when they have the same length and agree letter by
    letter. *)
Definition isCapital (c : ascii) : bool :=
  ((65 <=? N_of_ascii c) && (N_of_ascii c <=? 90))%N.

Definition sameLetter (c d : ascii) : bool :=
  Ascii.eqb c d
  || (isCapital c && (N_of_ascii d =? N_of_ascii c + 32)%N)
  || (isCapital d && (N_of_ascii c =? N_of_ascii d + 32)%N).

Fixpoint equalsIgnoreAsciiCase (a b : string) : bool :=
  match a, b with
  | EmptyString, EmptyString => true
  | String c a', String d b' => sameLetter c d && equalsIgnoreAsciiCase a' b'
  | _, _ => false
  end.

(** ** The representation invariant of the store

    A [Map] never holds a key twice; every record sits under its own id, and
    the ids handed out so far lie below the counter. *)

Definition MapOk {V} (idOf : V -> Z) (next : Z) (m : JsMap.t V) : Prop :=
  JsMap.wellFormed m
  /\ Forall (fun e => idOf (snd e) = fst e /\ fst e < next) m.

Record StoreOk (s : MemStorage) : Prop := mkStoreOk {
  users_ok : MapOk User.id (userCurrentId s) (users s);
  messages_ok : MapOk Message.id (messageCurrentId s) (messages s);
  guesses_ok : MapOk Guess.id (guessCurrentId s) (guesses s)
}.

(** The stores the server can be in: [new MemStorage()] followed by any
    sequence of the mutating methods. *)
Inductive Reachable : MemStorage -> Prop :=
| R_new : Reachable constructor
| R_createUser s now d :
    Reachable s -> Reachable (after (createUser now d) s)
| R_updateUserLastActive s now id :
    Reachable s -> Reachable (after (updateUserLastActive now id) s)
| R_createMessage s now d :
    Reachable s -> Reachable (after (createMessage now d) s)
| R_markMessagesAsRead s a b :
    Reachable s -> Reachable (after (markMessagesAsRead a b) s)
| R_createGuess s now d :
    Reachable s -> Reachable (after (createGuess now d) s).

(** What the loop of [markMessagesAsRead] amounts to, entry by entry. *)
Definition markEntry (senderId receiverId : Z) (e : Z * Message.t) : Z * Message.t :=
  if unreadFromTo senderId receiverId (snd e)
  then (fst e, Message.set_read (Js.Bool true) (snd e))
  else e.

Definition markMessage (senderId receiverId : Z) (m : Message.t) : Message.t :=
  if unreadFromTo senderId receiverId m then Message.set_read (Js.Bool true) m else m.

(** The order the final sort of the aggregator promises: later
    [lastMessageTime] first, entries without one after all others. *)
Definition recentFirst (a b : Conversation.t) : Prop :=
  match Conversation.lastMessageTime a, Conversation.lastMessageTime b with
  | Some ta, Some tb => tb <= ta
  | Some _, None => True
  | None, Some _ => False
  | None, None => True
  end.

Definition olderFirst (a b : Message.t) : Prop :=
  Message.timestamp a <= Message.timestamp b.

(** ** Scenarios the specification describes *)

(** The round trip: create a message, then fetch the thread of its two
    parties straight away. *)
Definition createThenFetch (now : Z) (d : InsertMessage.t)
    : M (Message.t * list Message.t) :=
  message <- createMessage now d ;;
  thread <- getMessagesBetweenUsers (InsertMessage.senderId d)
                                    (InsertMessage.receiverId d) ;;
  ret (message, thread).

(** [m] is in [thread] exactly once: it is the one entry with its id. *)
Definition occursOnce (m : Message.t) (thread : list Message.t) : Prop :=
  filter (fun x => Message.id x =? Message.id m) thread = [m].

(** The round trip as the specification puts it, with [r] the [read] value
    the fetched message is said to carry. *)
Definition roundTrip (s : MemStorage) (now : Z) (d : InsertMessage.t)
    (r : Js.flag) : Prop :=
  let (m, thread) := result (createThenFetch now d) s in
  occursOnce m thread /\ Message.read m = r.

(** Three users register, then three messages go out at [t1], [t2] and
    [t3]: the first between the user and [B], the later two between the
    user and [A]; at last the user asks for the conversation list. *)
Definition twoCounterparts (dU dA dB : InsertUser.t) (t1 t2 t3 : Z)
    (c1 c2 c3 : string) : M (User.t * User.t * list Conversation.t) :=
  u <- createUser 0 dU ;;
  a <- createUser 0 dA ;;
  b <- createUser 0 dB ;;
  createMessage t1 (InsertMessage.mk (User.id u) (User.id b) c1 (Js.Bool false)) ;;
  createMessage t2 (InsertMessage.mk (User.id a) (User.id u) c2 (Js.Bool false)) ;;
  createMessage t3 (InsertMessage.mk (User.id u) (User.id a) c3 (Js.Bool false)) ;;
  conversations <- getConversationsForUser (User.id u) ;;
  ret (a, b, conversations).

(** The number of messages from [senderId] to [receiverId] not read yet. *)
Definition unreadFromToCount (senderId receiverId : Z) (s : MemStorage) : Z :=
  Z.of_nat (List.length
    (filter (fun m => (Message.senderId m =? senderId)
                      && (Message.receiverId m =? receiverId)
                      && negb (Js.truthy (Message.read m)))
            (JsMap.values (messages s)))).

(** ** Sample data *)

Definition jane : InsertUser.t :=
  InsertUser.mk "jane" "s3cret" "Jane Doe" "Night Owl" 16 "MIL" "4A" "animal" "owl".

Definition bob : InsertUser.t :=
  InsertUser.mk "Bob" "hunter2" "Bob Ray" "Red Fox" 17 "MIL" "5B" "fantasy" "elf".

(** Jane (id 1) and Bob (id 2) have registered; Bob has written to Jane at
    10 and at 20, Jane has answered at 30; nothing has been read. *)
Definition sampleStore : MemStorage :=
  after (createUser 1 jane ;;
         createUser 2 bob ;;
         createMessage 10 (InsertMessage.mk 2 1 "hi" (Js.Bool false)) ;;
         createMessage 20 (InsertMessage.mk 2 1 "you there?" (Js.Bool false)) ;;
         createMessage 30 (InsertMessage.mk 1 2 "yes" (Js.Bool false)))
        constructor.

(** The request a logged-in user sends to guess who [targetId] is. *)
Definition guessBy (guesserId : Z) (targetId : Z) (name : string) : Routes.Request :=
  Routes.mkRequest (Some guesserId)
    [("targetId"%string, Js.VNumber targetId);
     ("guessedName"%string, Js.VString name);
     ("correct"%string, Js.VBool false)].

(** ** server/routes.ts: the handlers that read *)

Module Api.
Import Routes.

(** The fields of a user that [GET /api/users] hands out. *)
Record PublicUser : Type := mkPublicUser {
  id : Z;
  fakeName : string;
  avatarType : string;
  avatarId : string;
  lastActive : Z
}.

(** [res.status(status).json(payload)], or [res.status(status).json({ message })]
    on the paths that refuse the request. *)
Inductive Answer (A : Type) : Type :=
| Sent (status : Z) (payload : A)
| Refused (status : Z) (message : string).
Arguments Sent {A} status payload.
Arguments Refused {A} status message.

(** [app.get("/api/users", requireAuth, ...)] *)
Definition getUsers (req : Request) : M (Answer (list PublicUser)) :=
  match user req with
  | None => ret (Refused 401 "Unauthorized")
  | Some userId =>
      allUsers <- getAllUsers ;;
      let users :=
        map (fun user =>
               mkPublicUser (User.id user) (User.fakeName user)
                 (User.avatarType user) (User.avatarId user) (User.lastActive user))
            (filter (fun user => negb (User.id user =? userId)) allUsers) in
      ret (Sent 200 users)
  end.

(** [app.get("/api/conversations", requireAuth, ...)] *)
Definition getConversations (req : Request) : M (Answer (list Conversation.t)) :=
  match user req with
  | None => ret (Refused 401 "Unauthorized")
  | Some userId =>
      conversations <- getConversationsForUser userId ;;
      ret (Sent 200 conversations)
  end.

(** [app.get("/api/messages/unread/count", requireAuth, ...)]; the payload
    is the [count] of [{ count }]. *)
Definition getUnreadCount (req : Request) : M (Answer Z) :=
  match user req with
  | None => ret (Refused 401 "Unauthorized")
  | Some userId =>
      count <- getUnreadMessagesCount userId ;;
      ret (Sent 200 count)
  end.

(** An array returned by the store holds the stored message objects
    themselves, and the store keeps each of them under its id: what such an
    element shows when it is serialised is the state the object has by
    then. *)
Definition current (s : MemStorage) (message : Message.t) : Message.t :=
  match JsMap.get (Message.id message) (messages s) with
  | Some stored => stored
  | None => message
  end.

Section WithParseInt.

(** [parseInt]: the integer a text starts with, [None] for [NaN]. *)
Variable parseInt : string -> option Z.

(** [app.get("/api/messages/:userId", requireAuth, ...)]; [userId] is
    [req.params.userId]. The thread is fetched first, the marking loop then
    writes to the fetched objects, and only then the thread is serialised. *)
Definition getMessages (req : Request) (userId : string)
    : M (Answer (list Message.t)) :=
  match user req with
  | None => ret (Refused 401 "Unauthorized")
  | Some currentUserId =>
      match parseInt userId with
      | None => ret (Refused 400 "Invalid user ID")
      | Some otherUserId =>
          messages <- getMessagesBetweenUsers currentUserId otherUserId ;;
          markMessagesAsRead otherUserId currentUserId ;;
          serialised <- gets (fun s => map (current s) messages) ;;
          ret (Sent 200 serialised)
      end
  end.

End WithParseInt.

End Api.

(** ** server/index.ts: the request log *)

Module Log.

(** A string as its UTF-16 code units, which is what [length] and [slice]
    count. *)
Definition text : Type := list N.

Fixpoint startsWith (s searchString : text) : bool :=
  match searchString, s with
  | [], _ => true
  | c :: searchString', d :: s' => (c =? d)%N && startsWith s' searchString'
  | _ :: _, [] => false
  end.

(** [s.slice(start, end)] for [0 <= start <= end]. *)
Definition slice (s : text) (start end_ : nat) : text :=
  firstn (end_ - start) (skipn start s).

(** The line the [finish] listener hands to [log], if any. [statusCode] and
    [duration] are the numbers as the template prints them;
    [capturedJsonResponse] is [JSON.stringify] of the body when one (truthy)
    went through [res.json]. The code units spell [" "], [" in "], ["ms"],
    [" :: "], ["/api"] and the ellipsis. *)
Definition finish (method path statusCode duration : text)
    (capturedJsonResponse : option text) : option text :=
  if startsWith path [47; 97; 112; 105]%N then
    let logLine :=
      (method ++ [32] ++ path ++ [32] ++ statusCode
       ++ [32; 105; 110; 32] ++ duration ++ [109; 115])%N in
    let logLine :=
      match capturedJsonResponse with
      | Some json => (logLine ++ [32; 58; 58; 32] ++ json)%N
      | None => logLine
      end in
    let logLine :=
      if (80 <? List.length logLine)%nat
      then (slice logLine 0 79 ++ [8230])%N
      else logLine in
    Some logLine
  else None.

End Log.

(** ** Runs of the store *)

(** One call of a method that writes. *)
Inductive Step : MemStorage -> MemStorage -> Prop :=
| S_createUser s now d : Step s (after (createUser now d) s)
| S_updateUserLastActive s now id : Step s (after (updateUserLastActive now id) s)
| S_createMessage s now d : Step s (after (createMessage now d) s)
| S_markMessagesAsRead s a b : Step s (after (markMessagesAsRead a b) s)
| S_createGuess s now d : Step s (after (createGuess now d) s).

Inductive Steps : MemStorage -> MemStorage -> Prop :=
| Steps_refl s : Steps s s
| Steps_step s s' s'' : Steps s s' -> Step s' s'' -> Steps s s''.

(** Two messages that differ at most in [read]; two users that differ at most
    in [lastActive]. *)
Definition sameButRead (m m' : Message.t) : Prop :=
  Message.set_read Js.Undefined m' = Message.set_read Js.Undefined m.

Definition sameButLastActive (u u' : User.t) : Prop :=
  User.set_lastActive 0 u' = User.set_lastActive 0 u.

(** The counterparts of [userId]: whoever is at the other end of a message
    [userId] sent or received. *)
Definition counterpart (userId otherUserId : Z) (s : MemStorage) : Prop :=
  exists m, In m (JsMap.values (messages s)) /\ between userId otherUserId m = true.

(** The sum of the unread counts of a conversation list. *)
Definition totalUnread (conversations : list Conversation.t) : Z :=
  fold_right (fun c n => Conversation.unreadCount c + n) 0 conversations.

(** The ids [1], [2], ... below the counter value [next]. *)
Definition idsUpTo (next : Z) : list Z :=
  map Z.of_nat (seq 1 (Z.to_nat (next - 1))).

(** What a run may do to the records a store holds: a message keeps
    everything but [read], which once true stays true; a user keeps
    everything but [lastActive]; a guess is kept as it is. *)
Record Keeps (s s' : MemStorage) : Prop := mkKeeps {
  keeps_messages : forall k m, JsMap.get k (messages s) = Some m ->
    exists m', JsMap.get k (messages s') = Some m'
               /\ sameButRead m m'
               /\ (Message.read m = Js.Bool true -> Message.read m' = Js.Bool true);
  keeps_users : forall k u, JsMap.get k (users s) = Some u ->
    exists u', JsMap.get k (users s') = Some u' /\ sameButLastActive u u';
  keeps_guesses : forall k g, JsMap.get k (guesses s) = Some g ->
    JsMap.get k (guesses s') = Some g
}.

(** The log line of a request before it is cut to size. *)
Definition assembledLine (method path statusCode duration : Log.text)
    (capturedJsonResponse : option Log.text) : Log.text :=
  (method ++ [32] ++ path ++ [32] ++ statusCode
   ++ [32; 105; 110; 32] ++ duration ++ [109; 115]
   ++ match capturedJsonResponse with
      | Some json => [32; 58; 58; 32] ++ json
      | None => []
      end)%N.

(** * Facts about the building blocks *)

Module JsMapFacts.
Import JsMap.

Section WithValues.
Context {V : Type}.
Implicit Types (m : t V) (k : Z) (v : V).

Lemma get_set_same m k v : get k (set k v m) = Some v.
Proof.
  induction m as [|[k' v'] r IH]; simpl.
  - now rewrite Z.eqb_refl.
  - destruct (k' =? k) eqn:E; simpl.
    + now rewrite Z.eqb_refl.
    + now rewrite E.
Qed.

Lemma get_set_other m k k' v : k <> k' -> get k' (set k v m) = get k' m.
Proof.
  intros Hne. induction m as [|[k0 v0] r IH]; simpl.
  - destruct (k =? k') eqn:E; [apply Z.eqb_eq in E; contradiction | reflexivity].
  - destruct (k0 =? k) eqn:E; simpl.
    + apply Z.eqb_eq in E. subst k0.
      destruct (k =? k') eqn:E'; [apply Z.eqb_eq in E'; contradiction | reflexivity].
    + now rewrite IH.
Qed.

Lemma get_None_iff m k : get k m = None <-> ~ In k (keys m).
Proof.
  induction m as [|[k' v'] r IH]; simpl.
  - tauto.
  - destruct (k' =? k) eqn:E.
    + apply Z.eqb_eq in E. split; [discriminate | intros H; exfalso; apply H; now left].
    + apply Z.eqb_neq in E. rewrite IH. tauto.
Qed.

Lemma get_Some_In m k v : get k m = Some v -> In (k, v) m.
Proof.
  induction m as [|[k' v'] r IH]; simpl; [discriminate|].
  destruct (k' =? k) eqn:E.
  - apply Z.eqb_eq in E. intros [= ->]. subst. now left.
  - intros H. right. now apply IH.
Qed.

Lemma In_get m k v : wellFormed m -> In (k, v) m -> get k m = Some v.
Proof.
  unfold wellFormed.
  induction m as [|[k' v'] r IH]; simpl; [tauto|].
  intros Hnd [Heq | Hin].
  - injection Heq as -> ->. now rewrite Z.eqb_refl.
  - inversion Hnd as [|? ? Hnotin Hnd']; subst.
    destruct (k' =? k) eqn:E.
    + apply Z.eqb_eq in E. subst k'. exfalso. apply Hnotin.
      unfold keys. change k with (fst (k, v)). now apply in_map.
    + now apply IH.
Qed.

(** Setting an absent key appends the entry. *)
Lemma set_absent m k v : ~ In k (keys m) -> set k v m = m ++ [(k, v)].
Proof.
  induction m as [|[k' v'] r IH]; simpl; [reflexivity|].
  intros Hnotin. destruct (k' =? k) eqn:E.
  - apply Z.eqb_eq in E. exfalso. apply Hnotin. now left.
  - rewrite IH; [reflexivity | tauto].
Qed.

(** Setting a present key rewrites the entry where it stands. *)
Lemma set_present pre suf k v0 v :
  ~ In k (keys pre) ->
  set k v (pre ++ (k, v0) :: suf) = pre ++ (k, v) :: suf.
Proof.
  induction pre as [|[k' v'] r IH]; simpl.
  - now rewrite Z.eqb_refl.
  - intros Hnotin. destruct (k' =? k) eqn:E.
    + apply Z.eqb_eq in E. exfalso. apply Hnotin. now left.
    + rewrite IH; [reflexivity | tauto].
Qed.

Lemma keys_set_present m k v : In k (keys m) -> keys (set k v m) = keys m.
Proof.
  induction m as [|[k' v'] r IH]; simpl; [tauto|].
  destruct (k' =? k) eqn:E; simpl.
  - apply Z.eqb_eq in E. now subst.
  - apply Z.eqb_neq in E. intros [H | H]; [contradiction|]. now rewrite IH.
Qed.

Lemma In_set m k v e : In e (set k v m) -> e = (k, v) \/ In e m.
Proof.
  induction m as [|[k' v'] r IH]; simpl.
  - intros [<- | []]. now left.
  - destruct (k' =? k) eqn:E; simpl.
    + intros [<- | H]; [now left | right; now right].
    + intros [<- | H]; [right; now left|].
      destruct (IH H) as [-> | Hin]; [now left | right; now right].
Qed.

Lemma keys_set m k v :
  keys (set k v m) = if existsb (Z.eqb k) (keys m) then keys m else keys m ++ [k].
Proof.
  destruct (existsb (Z.eqb k) (keys m)) eqn:E.
  - apply keys_set_present. apply existsb_exists in E.
    destruct E as [x [Hin Hx]]. apply Z.eqb_eq in Hx. now subst.
  - rewrite set_absent.
    + unfold keys. now rewrite map_app.
    + intros Hin. apply Bool.not_true_iff_false in E. apply E.
      apply existsb_exists. exists k. split; [assumption | apply Z.eqb_refl].
Qed.

Lemma wellFormed_set m k v : wellFormed m -> wellFormed (set k v m).
Proof.
  unfold wellFormed. intros Hnd. rewrite keys_set.
  destruct (existsb (Z.eqb k) (keys m)) eqn:E; [assumption|].
  apply (Permutation_NoDup (l := k :: keys m)).
  - apply Permutation_cons_append.
  - constructor; [|assumption]. intros Hin.
    apply Bool.not_true_iff_false in E. apply E.
    apply existsb_exists. exists k. split; [assumption | apply Z.eqb_refl].
Qed.

Lemma Forall_set (P : Z * V -> Prop) m k v :
  Forall P m -> P (k, v) -> Forall P (set k v m).
Proof.
  intros Hall Hkv. apply Forall_forall. intros e He.
  destruct (In_set _ _ _ _ He) as [-> | Hin]; [assumption|].
  rewrite Forall_forall in Hall. now apply Hall.
Qed.
End WithValues.
End JsMapFacts.

Module SortFacts.
Import Js.

Section Generic.
Context {A : Type} (compareFn : A -> A -> Z).

Lemma insert_Permutation x l : Permutation (insert compareFn x l) (x :: l).
Proof.
  induction l as [|y r IH]; simpl; [reflexivity|].
  destruct (compareFn x y <=? 0); [reflexivity|].
  rewrite IH. apply perm_swap.
Qed.

Lemma sort_Permutation l : Permutation (sort compareFn l) l.
Proof.
  induction l as [|x r IH]; simpl; [reflexivity|].
  rewrite insert_Permutation. now constructor.
Qed.

Lemma sort_In x l : In x (sort compareFn l) <-> In x l.
Proof.
  split; apply Permutation_in; [|symmetry]; apply sort_Permutation.
Qed.

Lemma filter_Permutation (p : A -> bool) l l' :
  Permutation l l' -> Permutation (filter p l) (filter p l').
Proof.
  induction 1 as [|x l l' H IH|x y l|l l' l'' H1 IH1 H2 IH2]; cbn.
  - constructor.
  - destruct (p x); [now constructor | assumption].
  - destruct (p x), (p y); try reflexivity. apply perm_swap.
  - now transitivity (filter p l').
Qed.

Lemma sort_length l : List.length (sort compareFn l) = List.length l.
Proof. apply Permutation_length, sort_Permutation. Qed.
End Generic.

(** When the comparator is that of a total preorder [R], the outcome is
    ordered by [R] throughout. *)
Section Ordered.
Context {A : Type} (compareFn : A -> A -> Z) (R : A -> A -> Prop).
Hypothesis compare_le : forall x y, compareFn x y <= 0 -> R x y.
Hypothesis compare_gt : forall x y, 0 < compareFn x y -> R y x.
Hypothesis R_trans : forall x y z, R x y -> R y z -> R x z.

Lemma insert_StronglySorted x l :
  StronglySorted R l -> StronglySorted R (insert compareFn x l).
Proof.
  induction 1 as [|y r Hs IH Hall]; simpl.
  - constructor; constructor.
  - destruct (compareFn x y <=? 0) eqn:E.
    + apply Z.leb_le in E. constructor.
      * now constructor.
      * constructor; [now apply compare_le|].
        eapply Forall_impl; [|exact Hall]. intros z Hz.
        eapply R_trans; [apply compare_le; eassumption | assumption].
    + apply Z.leb_gt in E. constructor; [assumption|].
      apply Forall_forall. intros z Hz.
      apply (Permutation_in _ (insert_Permutation compareFn x r)) in Hz.
      destruct Hz as [<- | Hz].
      * now apply compare_gt.
      * rewrite Forall_forall in Hall. now apply Hall.
Qed.

Lemma sort_StronglySorted l : StronglySorted R (sort compareFn l).
Proof.
  induction l as [|x r IH]; simpl; [constructor|].
  now apply insert_StronglySorted.
Qed.
End Ordered.

Lemma sort_olderFirst l : StronglySorted olderFirst (sort byTimestampAsc l).
Proof.
  apply sort_StronglySorted; unfold byTimestampAsc, olderFirst; intros; lia.
Qed.

Lemma sort_recentFirst l : StronglySorted recentFirst (sort byLastMessageTime l).
Proof.
  apply sort_StronglySorted; unfold byLastMessageTime, recentFirst;
    intros x y; [| |intros z];
    destruct (Conversation.lastMessageTime x), (Conversation.lastMessageTime y);
    try destruct (Conversation.lastMessageTime z); intros; try lia; tauto.
Qed.
End SortFacts.

(** * Facts about the store *)

Module StoreFacts.
Import JsMap JsMapFacts.

Lemma after_bind {A B} (c : M A) (k : A -> M B) s :
  after (bind c k) s = after (k (result c s)) (after c s).
Proof. unfold after, result, bind. now destruct (c s). Qed.

Lemma result_bind {A B} (c : M A) (k : A -> M B) s :
  result (bind c k) s = result (k (result c s)) (after c s).
Proof. unfold after, result, bind. now destruct (c s). Qed.

Lemma after_gets {A} (f : MemStorage -> A) s : after (gets f) s = s.
Proof. reflexivity. Qed.

Lemma getUser_pure id s : after (getUser id) s = s.
Proof. reflexivity. Qed.

Lemma getUser_result id s : result (getUser id) s = JsMap.get id (users s).
Proof. reflexivity. Qed.

Lemma with_messages_same s : with_messages (fun _ => messages s) s = s.
Proof. now destruct s. Qed.

Lemma keys_markEntry a b m : keys (map (markEntry a b) m) = keys m.
Proof.
  unfold keys. rewrite map_map. apply map_ext.
  intros [k v]. unfold markEntry. simpl. now destruct (unreadFromTo a b v).
Qed.

(** The loop has rewritten the entries it has passed ([pre]) and still
    has [suf] before it. *)
Lemma markMessagesAsRead_loop a b suf : forall pre s,
  messages s = pre ++ suf ->
  NoDup (keys (pre ++ suf)) ->
  after (forOf suf (fun '(id, message) =>
           if unreadFromTo a b message
           then modify (with_messages (set id (Message.set_read (Js.Bool true) message)))
           else ret tt)) s
  = with_messages (fun _ => pre ++ map (markEntry a b) suf) s.
Proof.
  induction suf as [|[k msg] suf IH]; intros pre s Hs Hnd.
  - simpl. rewrite <- Hs. now rewrite with_messages_same.
  - cbn [forOf]. rewrite after_bind.
    assert (Hk : ~ In k (keys pre)).
    { unfold keys in *. rewrite map_app in Hnd. simpl in Hnd.
      apply NoDup_remove_2 in Hnd. intros Hin. apply Hnd.
      apply in_or_app. now left. }
    assert (Hm : map (markEntry a b) ((k, msg) :: suf)
                 = (if unreadFromTo a b msg
                    then (k, Message.set_read (Js.Bool true) msg)
                    else (k, msg)) :: map (markEntry a b) suf) by reflexivity.
    rewrite Hm. clear Hm.
    destruct (unreadFromTo a b msg) eqn:E.
    + rewrite (IH (pre ++ [(k, Message.set_read (Js.Bool true) msg)])).
      * unfold after, result, modify, with_messages. cbn. now rewrite <- app_assoc.
      * unfold after, result, modify, with_messages. cbn. rewrite Hs.
        rewrite set_present by assumption. now rewrite <- app_assoc.
      * rewrite <- app_assoc. cbn.
        unfold keys in *. rewrite map_app in *. exact Hnd.
    + rewrite (IH (pre ++ [(k, msg)])).
      * unfold after, result, ret. cbn. now rewrite <- app_assoc.
      * unfold after, result, ret. cbn. rewrite Hs. now rewrite <- app_assoc.
      * now rewrite <- app_assoc.
Qed.

Lemma markMessagesAsRead_after a b s :
  wellFormed (messages s) ->
  after (markMessagesAsRead a b) s = with_messages (map (markEntry a b)) s.
Proof.
  intros Hnd. unfold markMessagesAsRead. rewrite after_bind, after_gets.
  unfold result, gets, entries. cbn [fst].
  now rewrite (markMessagesAsRead_loop a b (messages s) [] s).
Qed.
(** ** The invariant holds in every reachable store *)

Section MapInvariant.
Context {V : Type} (idOf : V -> Z).

Lemma MapOk_empty next : MapOk idOf next (@empty V).
Proof. split; constructor. Qed.

Lemma MapOk_mono next next' m :
  next <= next' -> MapOk idOf next m -> MapOk idOf next' m.
Proof.
  intros Hle [Hnd Hall]. split; [assumption|].
  eapply Forall_impl; [|exact Hall]. cbn. intros e [H1 H2]. split; [assumption | lia].
Qed.

Lemma MapOk_set next m k v :
  idOf v = k -> k < next -> MapOk idOf next m -> MapOk idOf next (set k v m).
Proof.
  intros Hid Hlt [Hnd Hall]. split.
  - now apply wellFormed_set.
  - apply Forall_set; [assumption | now split].
Qed.

Lemma MapOk_fresh next m : MapOk idOf next m -> ~ In next (keys m).
Proof.
  intros [_ Hall] Hin. unfold keys in Hin. apply in_map_iff in Hin.
  destruct Hin as [e [He Hin]]. rewrite Forall_forall in Hall.
  destruct (Hall e Hin) as [_ Hlt]. lia.
Qed.

Lemma MapOk_get next m k v : MapOk idOf next m -> get k m = Some v -> idOf v = k.
Proof.
  intros [_ Hall] Hget. apply get_Some_In in Hget.
  rewrite Forall_forall in Hall. now destruct (Hall _ Hget).
Qed.

Lemma MapOk_get_lt next m k v : MapOk idOf next m -> get k m = Some v -> k < next.
Proof.
  intros [_ Hall] Hget. apply get_Some_In in Hget.
  rewrite Forall_forall in Hall. now destruct (Hall _ Hget).
Qed.
End MapInvariant.

Lemma MapOk_markEntry a b next m :
  MapOk Message.id next m -> MapOk Message.id next (map (markEntry a b) m).
Proof.
  intros [Hnd Hall]. split.
  - unfold wellFormed. now rewrite keys_markEntry.
  - apply Forall_map. eapply Forall_impl; [|exact Hall].
    intros [k v]. unfold markEntry. cbn. now destruct (unreadFromTo a b v).
Qed.

Lemma StoreOk_constructor : StoreOk constructor.
Proof. split; apply MapOk_empty. Qed.

Lemma StoreOk_createUser now d s : StoreOk s -> StoreOk (after (createUser now d) s).
Proof.
  intros [Hu Hm Hg]. split; cbn; try assumption.
  apply MapOk_set; [reflexivity | lia |].
  eapply MapOk_mono; [|exact Hu]. lia.
Qed.

Lemma StoreOk_updateUserLastActive now id s :
  StoreOk s -> StoreOk (after (updateUserLastActive now id) s).
Proof.
  intros [Hu Hm Hg]. unfold updateUserLastActive. rewrite after_bind.
  unfold getUser at 2. rewrite after_gets. unfold result, getUser, gets. cbn [fst].
  destruct (get id (users s)) as [user|] eqn:E; [|now split].
  split; cbn; try assumption.
  apply MapOk_set; [|eapply MapOk_get_lt; eassumption | assumption].
  cbn. eapply MapOk_get; eassumption.
Qed.

Lemma StoreOk_createMessage now d s :
  StoreOk s -> StoreOk (after (createMessage now d) s).
Proof.
  intros [Hu Hm Hg]. split; cbn; try assumption.
  apply MapOk_set; [reflexivity | lia |].
  eapply MapOk_mono; [|exact Hm]. lia.
Qed.

Lemma StoreOk_markMessagesAsRead a b s :
  StoreOk s -> StoreOk (after (markMessagesAsRead a b) s).
Proof.
  intros [Hu Hm Hg]. rewrite markMessagesAsRead_after by apply Hm.
  split; cbn; try assumption. now apply MapOk_markEntry.
Qed.

Lemma StoreOk_createGuess now d s :
  StoreOk s -> StoreOk (after (createGuess now d) s).
Proof.
  intros [Hu Hm Hg]. split; cbn; try assumption.
  apply MapOk_set; [reflexivity | lia |].
  eapply MapOk_mono; [|exact Hg]. lia.
Qed.

(** Settles the invariant on a store that is written out. *)
Ltac concrete_store_ok :=
  split; (split;
    [ repeat (constructor; [cbn; intuition lia|]); constructor
    | repeat (constructor; [cbn; lia|]); constructor ]).

Theorem Reachable_StoreOk s : Reachable s -> StoreOk s.
Proof.
  induction 1.
  - apply StoreOk_constructor.
  - now apply StoreOk_createUser.
  - now apply StoreOk_updateUserLastActive.
  - now apply StoreOk_createMessage.
  - now apply StoreOk_markMessagesAsRead.
  - now apply StoreOk_createGuess.
Qed.
End StoreFacts.

(** * The store operations *)

Module StorageSpec.
Import JsMap JsMapFacts SortFacts StoreFacts.

Lemma sampleStore_ok : StoreOk sampleStore.
Proof. concrete_store_ok. Qed.

(** ** Lookups and [updateUserLastActive] *)

Lemma buildConversations_pure userId allMessages ids : forall conversations s,
  after (buildConversations userId allMessages ids conversations) s = s.
Proof.
  induction ids as [|otherUserId rest IH]; intros conversations s; [reflexivity|].
  cbn [buildConversations]. rewrite after_bind, getUser_pure.
  destruct (result (getUser otherUserId) s); apply IH.
Qed.

(** C9. No store operation has an error outcome: looking up an id that
    is not in the user map answers undefined (here [None]) and leaves the
    store alone, and [updateUserLastActive] on such an id changes nothing;
    on an id that is present it rewrites that user's [lastActive] to the
    current time and nothing else: the user's other fields, the other
    users, the order of the map, the messages, the guesses and the three
    counters stay as they were. *)
Theorem updateUserLastActive_absent_or_present (s : MemStorage) (now id : Z) :
  after (getUser id) s = s
  /\ (~ In id (keys (users s)) ->
      result (getUser id) s = None
      /\ after (updateUserLastActive now id) s = s)
  /\ (forall user, result (getUser id) s = Some user ->
      let s' := after (updateUserLastActive now id) s in
      result (getUser id) s' = Some (User.set_lastActive now user)
      /\ User.lastActive (User.set_lastActive now user) = now
      /\ (User.id (User.set_lastActive now user),
          User.username (User.set_lastActive now user),
          User.password (User.set_lastActive now user),
          User.realName (User.set_lastActive now user),
          User.fakeName (User.set_lastActive now user),
          User.age (User.set_lastActive now user),
          User.school (User.set_lastActive now user),
          User.classInfo (User.set_lastActive now user),
          User.avatarType (User.set_lastActive now user),
          User.avatarId (User.set_lastActive now user))
         = (User.id user, User.username user, User.password user,
            User.realName user, User.fakeName user, User.age user,
            User.school user, User.classInfo user, User.avatarType user,
            User.avatarId user)
      /\ (forall id', id' <> id ->
            result (getUser id') s' = result (getUser id') s)
      /\ keys (users s') = keys (users s)
      /\ messages s' = messages s
      /\ guesses s' = guesses s
      /\ (userCurrentId s', messageCurrentId s', guessCurrentId s')
         = (userCurrentId s, messageCurrentId s, guessCurrentId s)).
Proof.
  split; [reflexivity|]. split.
  - intros Habsent. apply get_None_iff in Habsent.
    unfold updateUserLastActive. rewrite after_bind.
    unfold result, after, getUser, gets. cbn [fst snd]. rewrite Habsent.
    now split.
  - intros user Hget s'. subst s'.
    unfold updateUserLastActive. rewrite after_bind.
    unfold result, after, getUser, gets in *. cbn [fst snd] in *. rewrite Hget.
    cbn. repeat split.
    + apply get_set_same.
    + intros id' Hne. apply get_set_other. congruence.
    + apply keys_set_present. apply get_Some_In in Hget.
      unfold keys. change id with (fst (id, user)). now apply in_map.
Qed.

Lemma updateUserLastActive_absent_or_present_witness :
  (~ In 9 (keys (users sampleStore))
   /\ result (getUser 9) sampleStore = None
   /\ after (updateUserLastActive 50 9) sampleStore = sampleStore)
  /\ (exists user,
        result (getUser 2) sampleStore = Some user
        /\ result (getUser 2) (after (updateUserLastActive 50 2) sampleStore)
           = Some (User.set_lastActive 50 user)
        /\ messages (after (updateUserLastActive 50 2) sampleStore)
           = messages sampleStore).
Proof.
  assert (Habsent : ~ In 9 (keys (users sampleStore))) by (cbn; intuition lia).
  split.
  - destruct (updateUserLastActive_absent_or_present sampleStore 50 9)
      as [_ [H _]].
    split; [exact Habsent | exact (H Habsent)].
  - destruct (updateUserLastActive_absent_or_present sampleStore 50 2)
      as [_ [_ H]].
    eexists. split; [reflexivity|].
    destruct (H _ eq_refl) as [H1 [_ [_ [_ [_ [H2 _]]]]]].
    split; [exact H1 | exact H2].
Defined.

(** ** [createMessage] *)

(** What [createMessage] does for every draft: the message gets the
    counter's value as id, the current time as timestamp and the draft's
    own fields, [read] included; it is stored under its id and the counter
    moves on by one. *)
Lemma createMessage_assigns now d s :
  let m := result (createMessage now d) s in
  let s' := after (createMessage now d) s in
  m = Message.mk (messageCurrentId s) (InsertMessage.senderId d)
        (InsertMessage.receiverId d) (InsertMessage.content d) now
        (InsertMessage.read d)
  /\ get (Message.id m) (messages s') = Some m
  /\ messageCurrentId s' = messageCurrentId s + 1.
Proof.
  cbn. repeat split. apply get_set_same.
Qed.

(** C8. A draft without [read] is stored without it: the message keeps
    the id and the timestamp it should, but its [read] is undefined, not
    [false]. *)
Theorem createMessage_omitted_read_is_undefined :
  let d := InsertMessage.mk 1 2 "hi" Js.Undefined in
  let m := result (createMessage 1000 d) constructor in
  Message.id m = 1
  /\ Message.timestamp m = 1000
  /\ get 1 (messages (after (createMessage 1000 d) constructor)) = Some m
  /\ Message.read m = Js.Undefined
  /\ Message.read m <> Js.Bool false.
Proof.
  cbn. repeat split. discriminate.
Qed.

(** ** [getMessagesBetweenUsers] *)

Lemma between_iff a b m :
  between a b m = true <->
  (Message.senderId m = a /\ Message.receiverId m = b)
  \/ (Message.senderId m = b /\ Message.receiverId m = a).
Proof.
  unfold between. rewrite orb_true_iff, !andb_true_iff, !Z.eqb_eq. tauto.
Qed.

(** C6. The thread between [a] and [b] holds exactly the stored messages
    that went from one of them to the other, each as often as it is
    stored, in ascending order of timestamp; fetching it leaves the store
    as it was. *)
Theorem getMessagesBetweenUsers_exact_sorted (s : MemStorage) (a b : Z) :
  let thread := result (getMessagesBetweenUsers a b) s in
  (forall m, In m thread <->
     In m (values (messages s))
     /\ ((Message.senderId m = a /\ Message.receiverId m = b)
         \/ (Message.senderId m = b /\ Message.receiverId m = a)))
  /\ Permutation thread (filter (between a b) (values (messages s)))
  /\ StronglySorted olderFirst thread
  /\ after (getMessagesBetweenUsers a b) s = s.
Proof.
  cbn. split; [|split; [|split]].
  - intros m. rewrite sort_In, filter_In, between_iff. reflexivity.
  - apply sort_Permutation.
  - apply sort_olderFirst.
  - reflexivity.
Qed.

(** ** [getConversationsForUser] *)

(** C10. Listing the conversations of a user leaves the store exactly as
    it found it (users, messages with their read flags, guesses and
    counters), so asking again gives the same list. *)
Theorem getConversationsForUser_pure (s : MemStorage) (userId : Z) :
  after (getConversationsForUser userId) s = s
  /\ result (getConversationsForUser userId)
            (after (getConversationsForUser userId) s)
     = result (getConversationsForUser userId) s.
Proof.
  assert (H : after (getConversationsForUser userId) s = s).
  { unfold getConversationsForUser. rewrite after_bind, after_gets.
    rewrite after_bind, buildConversations_pure. reflexivity. }
  split; [exact H | now rewrite H].
Qed.
(** ** [markMessagesAsRead] and [getUnreadMessagesCount] *)

Lemma values_markEntry a b m :
  values (map (markEntry a b) m) = map (markMessage a b) (values m).
Proof.
  unfold values. rewrite !map_map. apply map_ext.
  intros [k v]. unfold markEntry, markMessage. cbn. now destruct (unreadFromTo a b v).
Qed.

Lemma markEntry_idempotent a b e : markEntry a b (markEntry a b e) = markEntry a b e.
Proof.
  destruct e as [k m]. unfold markEntry. cbn.
  destruct (unreadFromTo a b m) eqn:E; cbn; [|now rewrite E].
  unfold unreadFromTo. cbn. now rewrite andb_false_r.
Qed.

Lemma unread_split a r l :
  (List.length (filter (unreadFor r) (map (markMessage a r) l))
   + List.length (filter (unreadFromTo a r) l))%nat
  = List.length (filter (unreadFor r) l).
Proof.
  induction l as [|m l IH]; [reflexivity|].
  cbn [map filter]. unfold markMessage at 1.
  destruct (unreadFromTo a r m) eqn:E.
  - assert (Hu : unreadFor r m = true).
    { unfold unreadFromTo in E. unfold unreadFor.
      apply andb_true_iff in E. destruct E as [E1 E2].
      apply andb_true_iff in E1. destruct E1 as [_ E1]. now rewrite E1, E2. }
    rewrite Hu.
    assert (Hr : unreadFor r (Message.set_read (Js.Bool true) m) = false).
    { unfold unreadFor. cbn. apply andb_false_r. }
    rewrite Hr. cbn [List.length]. lia.
  - destruct (unreadFor r m); cbn [List.length]; lia.
Qed.

(** C4. Marking the messages from [a] to [b] as read a second time
    changes nothing: the store after two calls is the store after one, and
    so is every unread count taken afterwards. *)
Theorem markMessagesAsRead_idempotent (s : MemStorage) (a b : Z) :
  wellFormed (messages s) ->
  let once := after (markMessagesAsRead a b) s in
  let twice := after (markMessagesAsRead a b) once in
  twice = once
  /\ forall r, result (getUnreadMessagesCount r) twice
               = result (getUnreadMessagesCount r) once.
Proof.
  intros Hok once twice.
  assert (H : twice = once).
  { subst once twice.
    rewrite (markMessagesAsRead_after a b s) by exact Hok.
    rewrite markMessagesAsRead_after.
    - unfold with_messages. cbn. f_equal.
      rewrite map_map. apply map_ext. apply markEntry_idempotent.
    - unfold with_messages, wellFormed. cbn [messages]. rewrite keys_markEntry. exact Hok. }
  split; [exact H | now rewrite H].
Qed.

Lemma markMessagesAsRead_idempotent_witness :
  wellFormed (messages sampleStore)
  /\ after (markMessagesAsRead 2 1) (after (markMessagesAsRead 2 1) sampleStore)
     = after (markMessagesAsRead 2 1) sampleStore
  /\ result (getUnreadMessagesCount 1)
       (after (markMessagesAsRead 2 1) (after (markMessagesAsRead 2 1) sampleStore))
     = 0.
Proof.
  pose proof (proj1 (messages_ok _ sampleStore_ok)) as Hwf.
  split; [exact Hwf|].
  destruct (markMessagesAsRead_idempotent sampleStore 2 1 Hwf) as [H1 H2].
  split; [exact H1|]. rewrite (H2 1). reflexivity.
Defined.

(** C5. After [markMessagesAsRead a r] the unread count of [r] is what
    it was before, less the messages from [a] to [r] that were unread. *)
Theorem markMessagesAsRead_unread_count (s : MemStorage) (a r : Z) :
  wellFormed (messages s) ->
  result (getUnreadMessagesCount r) (after (markMessagesAsRead a r) s)
  = result (getUnreadMessagesCount r) s - unreadFromToCount a r s.
Proof.
  intros Hok. rewrite markMessagesAsRead_after by exact Hok.
  unfold result, getUnreadMessagesCount, gets, unreadFromToCount. cbn [fst with_messages messages].
  rewrite values_markEntry.
  pose proof (unread_split a r (values (messages s))) as H.
  unfold unreadFromTo in H. lia.
Qed.

Lemma markMessagesAsRead_unread_count_witness :
  wellFormed (messages sampleStore)
  /\ result (getUnreadMessagesCount 1) sampleStore = 2
  /\ unreadFromToCount 2 1 sampleStore = 2
  /\ result (getUnreadMessagesCount 1) (after (markMessagesAsRead 2 1) sampleStore)
     = 2 - 2.
Proof.
  pose proof (proj1 (messages_ok _ sampleStore_ok)) as Hwf.
  split; [exact Hwf|]. split; [reflexivity|]. split; [reflexivity|].
  exact (markMessagesAsRead_unread_count sampleStore 2 1 Hwf).
Defined.
(** ** Create, then fetch *)

Lemma values_app {V} (m m' : t V) : values (m ++ m') = values m ++ values m'.
Proof. apply map_app. Qed.

(** No stored message carries the id the counter is about to hand out. *)
Lemma next_id_unused s :
  StoreOk s ->
  filter (fun x => Message.id x =? messageCurrentId s) (values (messages s)) = [].
Proof.
  intros [_ [_ Hall] _]. unfold values.
  induction Hall as [|[k v] l [Hid Hlt] _ IH]; [reflexivity|].
  cbn in *. rewrite IH.
  destruct (Message.id v =? messageCurrentId s) eqn:E; [|reflexivity].
  apply Z.eqb_eq in E. lia.
Qed.

Lemma filter_filter_nil {A} (p q : A -> bool) l :
  filter p l = [] -> filter p (filter q l) = [].
Proof.
  induction l as [|x l IH]; [reflexivity|]. cbn.
  destruct (p x) eqn:Ep; [discriminate|]. intros H.
  destruct (q x); cbn; rewrite ?Ep; now apply IH.
Qed.

(** C7. Round trip: in a store that upholds its invariant, a message
    created from a draft that carries a [read] value is, right after, in
    the thread of its sender and receiver exactly once, and its [read] is
    the draft's: false for a draft that says [read: false]. *)
Theorem createMessage_then_thread (s : MemStorage) (now : Z) (d : InsertMessage.t) :
  StoreOk s ->
  InsertMessage.read d <> Js.Undefined ->
  roundTrip s now d (InsertMessage.read d).
Proof.
  intros Hok _. unfold roundTrip, createThenFetch.
  rewrite !result_bind. unfold ret at 1, result at 1. cbn [fst].
  set (m := result (createMessage now d) s).
  set (s' := after (createMessage now d) s).
  assert (Hs' : messages s' = messages s ++ [(messageCurrentId s, m)]).
  { subst s' m. cbn. apply set_absent.
    eapply MapOk_fresh. apply Hok. }
  split; [|reflexivity].
  unfold occursOnce, getMessagesBetweenUsers, result at 1, gets. cbn [fst].
  apply Permutation_length_1_inv.
  etransitivity;
    [|apply filter_Permutation; symmetry; apply sort_Permutation].
  rewrite Hs', values_app, !filter_app. cbn [values map snd filter].
  assert (Hb : between (InsertMessage.senderId d) (InsertMessage.receiverId d) m = true).
  { subst m. unfold between. cbn. now rewrite !Z.eqb_refl. }
  rewrite Hb. cbn [filter]. rewrite Z.eqb_refl.
  replace (Message.id m) with (messageCurrentId s) by reflexivity.
  rewrite filter_filter_nil by now apply next_id_unused.
  reflexivity.
Qed.

Lemma createMessage_then_thread_witness :
  StoreOk sampleStore
  /\ Js.Bool false <> Js.Undefined
  /\ roundTrip sampleStore 40 (InsertMessage.mk 1 2 "who are you?" (Js.Bool false))
               (Js.Bool false).
Proof.
  split; [exact sampleStore_ok|]. split; [discriminate|].
  apply (createMessage_then_thread sampleStore 40
           (InsertMessage.mk 1 2 "who are you?" (Js.Bool false)) sampleStore_ok).
  discriminate.
Defined.

(** The round trip does not give [read = false] for every draft: a draft
    that says [read: true] is stored, and fetched, as read. *)
Lemma roundTrip_read_true_draft :
  StoreOk constructor
  /\ ~ roundTrip constructor 1000 (InsertMessage.mk 1 2 "hi" (Js.Bool true))
                 (Js.Bool false).
Proof.
  split; [apply StoreOk_constructor|].
  unfold roundTrip. cbn. intros [_ H]. discriminate H.
Qed.
(** ** The order of the conversation list *)

Lemma StronglySorted_after {A} (R : A -> A -> Prop) pre c post :
  StronglySorted R (pre ++ c :: post) -> Forall (R c) post.
Proof.
  induction pre as [|x pre IH]; cbn; intros H; apply StronglySorted_inv in H.
  - apply H.
  - apply IH, H.
Qed.

(** C3. The conversation list comes back with the latest
    [lastMessageTime] first; the comparator of its final sort puts every
    entry without a [lastMessageTime] behind all that have one; and when
    a user has talked to [B] at [t1] and to [A] at [t2] and [t3], with
    [t1 < t2 < t3], the list is [A] (at [t3]), then [B] (at [t1]). *)
Theorem getConversationsForUser_recent_first :
  (forall s userId,
     StronglySorted recentFirst (result (getConversationsForUser userId) s))
  /\ (forall l pre c post,
        Js.sort byLastMessageTime l = pre ++ c :: post ->
        Conversation.lastMessageTime c = None ->
        Forall (fun c' => Conversation.lastMessageTime c' = None) post)
  /\ (forall dU dA dB t1 t2 t3 c1 c2 c3,
        t1 < t2 < t3 ->
        let '(a, b, conversations) :=
          result (twoCounterparts dU dA dB t1 t2 t3 c1 c2 c3) constructor in
        User.id a <> User.id b
        /\ map Conversation.userId conversations = [User.id a; User.id b]
        /\ map Conversation.lastMessageTime conversations = [Some t3; Some t1]
        /\ map Conversation.lastMessage conversations = [Some c3; Some c1]).
Proof.
  split; [|split].
  - intros s userId. unfold getConversationsForUser.
    rewrite !result_bind. apply sort_recentFirst.
  - intros l pre c post Heq Hnone.
    pose proof (sort_recentFirst l) as Hs. rewrite Heq in Hs.
    apply StronglySorted_after in Hs.
    eapply Forall_impl; [|exact Hs]. intros c'. unfold recentFirst.
    rewrite Hnone. now destruct (Conversation.lastMessageTime c').
  - intros dU dA dB t1 t2 t3 c1 c2 c3 Ht.
    assert (H32 : (t3 - t2 <=? 0) = false) by (apply Z.leb_gt; lia).
    assert (H31 : (t3 - t1 <=? 0) = false) by (apply Z.leb_gt; lia).
    unfold result, twoCounterparts. cbn -[Z.sub Z.leb].
    unfold byTimestampDesc. cbn -[Z.sub Z.leb].
    rewrite !H32. cbn -[Z.sub Z.leb]. rewrite !H31.
    unfold conversationWith. cbn -[Z.sub Z.leb].
    unfold byTimestampDesc. cbn -[Z.sub Z.leb]. rewrite !H32.
    cbn. repeat split. discriminate.
Qed.

Lemma getConversationsForUser_recent_first_witness :
  10 < 20 < 30
  /\ map Conversation.userId
       (snd (result (twoCounterparts jane bob bob 10 20 30 "a" "b" "c") constructor))
     = [2; 3]
  /\ Js.sort byLastMessageTime
       [Conversation.mk 7 "x" "animal" "cat" None None 0;
        Conversation.mk 8 "y" "animal" "dog" (Some "hi"%string) (Some 5) 0;
        Conversation.mk 9 "z" "animal" "emu" None None 0]
     = [Conversation.mk 8 "y" "animal" "dog" (Some "hi"%string) (Some 5) 0]
       ++ Conversation.mk 7 "x" "animal" "cat" None None 0
          :: [Conversation.mk 9 "z" "animal" "emu" None None 0]
  /\ Forall (fun c' => Conversation.lastMessageTime c' = None)
            [Conversation.mk 9 "z" "animal" "emu" None None 0].
Proof.
  destruct getConversationsForUser_recent_first as [_ [Hlast Hab]].
  split; [lia|]. split; [|split].
  - pose proof (Hab jane bob bob 10 20 30 "a"%string "b"%string "c"%string
                    (conj eq_refl eq_refl)) as H.
    cbn in H. destruct H as [_ [H _]]. exact H.
  - reflexivity.
  - exact (Hlast
      [Conversation.mk 7 "x" "animal" "cat" None None 0;
       Conversation.mk 8 "y" "animal" "dog" (Some "hi"%string) (Some 5) 0;
       Conversation.mk 9 "z" "animal" "emu" None None 0]
      [Conversation.mk 8 "y" "animal" "dog" (Some "hi"%string) (Some 5) 0]
      (Conversation.mk 7 "x" "animal" "cat" None None 0)
      [Conversation.mk 9 "z" "animal" "emu" None None 0]
      eq_refl eq_refl).
Defined.
End StorageSpec.

(** * The guess handler *)

Module RoutesSpec.
Import Routes JsMapFacts StoreFacts.

Lemma N_of_ascii_inj c d : N_of_ascii c = N_of_ascii d -> c = d.
Proof.
  intros H. rewrite <- (ascii_N_embedding c), <- (ascii_N_embedding d). now rewrite H.
Qed.

Lemma ascii_eqb_code c d : Ascii.eqb c d = (N_of_ascii c =? N_of_ascii d)%N.
Proof.
  destruct (Ascii.eqb_spec c d) as [-> | Hne].
  - now rewrite N.eqb_refl.
  - symmetry. apply N.eqb_neq. intros H. now apply Hne, N_of_ascii_inj.
Qed.

Lemma asciiLowerChar_code c :
  N_of_ascii (Js.asciiLowerChar c)
  = if isCapital c then (N_of_ascii c + 32)%N else N_of_ascii c.
Proof.
  unfold Js.asciiLowerChar, isCapital.
  destruct ((65 <=? N_of_ascii c) && (N_of_ascii c <=? 90))%N eqn:E; [|reflexivity].
  apply N_ascii_embedding.
  apply andb_true_iff in E. destruct E as [_ E]. apply N.leb_le in E. lia.
Qed.

Lemma asciiLowerChar_sameLetter c d :
  Ascii.eqb (Js.asciiLowerChar c) (Js.asciiLowerChar d) = sameLetter c d.
Proof.
  unfold sameLetter. rewrite !ascii_eqb_code, !asciiLowerChar_code. unfold isCapital.
  generalize (N_of_ascii c) (N_of_ascii d). intros n m.
  destruct (65 <=? n)%N eqn:E1, (n <=? 90)%N eqn:E2,
           (65 <=? m)%N eqn:E3, (m <=? 90)%N eqn:E4; cbn;
    rewrite ?N.leb_le, ?N.leb_gt in *;
    repeat match goal with
           | |- context [(?x =? ?y)%N] => destruct (N.eqb_spec x y)
           end; cbn; try reflexivity; lia.
Qed.

(** Comparing the lower-cased forms of two names in ASCII is comparing the
    names letter by letter up to case. *)
Lemma asciiLowerCase_equalsIgnoreAsciiCase a : forall b,
  String.eqb (Js.asciiLowerCase a) (Js.asciiLowerCase b) = equalsIgnoreAsciiCase a b.
Proof.
  induction a as [|c a IH]; intros [|d b]; cbn; try reflexivity.
  now rewrite asciiLowerChar_sameLetter, IH.
Qed.

Lemma prop_spread_same o name v : prop name (spread o name v) = v.
Proof. unfold prop, spread. cbn. now rewrite String.eqb_refl. Qed.

Lemma prop_spread_other o name name' v :
  String.eqb name' name = false -> prop name (spread o name' v) = prop name o.
Proof. intros H. unfold prop, spread. cbn. now rewrite H. Qed.

(** What a well-formed, authenticated guess for an existing target does. *)
Lemma postGuess_created toLowerCase s now req guesserId target name c tgt :
  user req = Some guesserId ->
  prop "targetId" (body req) = Js.VNumber target ->
  prop "guessedName" (body req) = Js.VString name ->
  prop "correct" (body req) = Js.VBool c ->
  JsMap.get target (users s) = Some tgt ->
  let ok := String.eqb (toLowerCase (User.realName tgt)) (toLowerCase name) in
  let guess := Guess.mk (guessCurrentId s) guesserId target name ok now in
  result (postGuess toLowerCase now req) s
    = mkResponse 201
        (GuessResult guess (if ok then Some (User.realName tgt) else None))
  /\ JsMap.get (guessCurrentId s) (guesses (after (postGuess toLowerCase now req) s))
     = Some guess.
Proof.
  intros Hs Ht Hn Hc Hget ok guess.
  unfold postGuess, parseInsertGuess. rewrite Hs.
  rewrite prop_spread_same, !prop_spread_other by reflexivity.
  rewrite Ht, Hn, Hc. cbn [InsertGuess.targetId InsertGuess.guessedName].
  rewrite result_bind, after_bind, getUser_result, getUser_pure, Hget.
  split; [reflexivity|].
  cbn. apply get_set_same.
Qed.

(** A message that goes through the handler is stored as unread, whatever
    the request body says about [read]. *)
Lemma postMessage_stores_unread filterMessage s now req :
  status (result (postMessage filterMessage now req) s) = 201 ->
  exists m,
    json (result (postMessage filterMessage now req) s) = StoredMessage m
    /\ JsMap.get (Message.id m)
         (messages (after (postMessage filterMessage now req) s)) = Some m
    /\ user req = Some (Message.senderId m)
    /\ Message.timestamp m = now
    /\ Message.read m = Js.Bool false.
Proof.
  unfold postMessage.
  destruct (user req) as [senderId|]; [|discriminate].
  destruct (parseInsertMessage _) as [parsed|]; [|discriminate].
  intros _. eexists. split; [reflexivity|]. cbn.
  split; [apply get_set_same | repeat split].
Qed.

(** C1. When a logged-in user submits a well-formed guess for a target
    that exists, the guess that ends up in the store has [correct] true
    exactly when the guessed name and the target's real name are the same
    once [toLowerCase] has been applied to both, that is, when they are equal
    regardless of case (whatever [correct] the request carried). As
    [toLowerCase] lowers A-Z in ASCII text, for names in ASCII this is
    agreement letter by letter up to case: for the real name "Jane Doe",
    "jane doe" is stored as correct and "Jane Doethe" as not correct. *)
Theorem postGuess_correct_iff_same_name
    (toLowerCase : string -> string)
    (s : MemStorage) (now : Z) (req : Request)
    (guesserId target : Z) (name : string) (c : bool) (tgt : User.t) :
  user req = Some guesserId ->
  prop "targetId" (body req) = Js.VNumber target ->
  prop "guessedName" (body req) = Js.VString name ->
  prop "correct" (body req) = Js.VBool c ->
  result (getUser target) s = Some tgt ->
  exists guess,
    JsMap.get (guessCurrentId s) (guesses (after (postGuess toLowerCase now req) s))
      = Some guess
    /\ Guess.guesserId guess = guesserId
    /\ Guess.targetId guess = target
    /\ Guess.guessedName guess = name
    /\ (Guess.correct guess = true <->
          toLowerCase name = toLowerCase (User.realName tgt))
    /\ (lowersAscii toLowerCase ->
        (Js.isAscii name = true -> Js.isAscii (User.realName tgt) = true ->
         (Guess.correct guess = true <->
            equalsIgnoreAsciiCase name (User.realName tgt) = true))
        /\ (User.realName tgt = "Jane Doe"%string -> name = "jane doe"%string ->
              Guess.correct guess = true)
        /\ (User.realName tgt = "Jane Doe"%string -> name = "Jane Doethe"%string ->
              Guess.correct guess = false)).
Proof.
  intros Hs Ht Hn Hc Hget.
  destruct (postGuess_created toLowerCase s now req guesserId target name c tgt
              Hs Ht Hn Hc Hget) as [_ Hstored].
  eexists. split; [exact Hstored|]. cbn [Guess.guesserId Guess.targetId
    Guess.guessedName Guess.correct].
  split; [reflexivity|]. split; [reflexivity|]. split; [reflexivity|].
  split; [|intros Hascii; split; [|split]].
  - rewrite String.eqb_eq. split; congruence.
  - intros Hname Hreal. rewrite (Hascii _ Hname), (Hascii _ Hreal).
    rewrite String.eqb_sym, asciiLowerCase_equalsIgnoreAsciiCase. reflexivity.
  - intros -> ->. rewrite !Hascii by reflexivity. reflexivity.
  - intros -> ->. rewrite !Hascii by reflexivity. reflexivity.
Qed.

Lemma postGuess_correct_iff_same_name_witness :
  user (guessBy 2 1 "jane doe") = Some 2
  /\ result (getUser 1) sampleStore
       = Some (User.mk 1 "jane" "s3cret" "Jane Doe" "Night Owl" 16 "MIL" "4A"
                       "animal" "owl" 1)
  /\ lowersAscii Js.asciiLowerCase
  /\ exists guess,
       JsMap.get 1 (guesses (after (postGuess Js.asciiLowerCase 40 (guessBy 2 1 "jane doe"))
                                   sampleStore))
         = Some guess
       /\ Guess.correct guess = true.
Proof.
  assert (Hascii : lowersAscii Js.asciiLowerCase) by (intros x _; reflexivity).
  split; [reflexivity|]. split; [reflexivity|]. split; [exact Hascii|].
  destruct (postGuess_correct_iff_same_name Js.asciiLowerCase sampleStore 40
              (guessBy 2 1 "jane doe") 2 1 "jane doe" false
              (User.mk 1 "jane" "s3cret" "Jane Doe" "Night Owl" 16 "MIL" "4A"
                       "animal" "owl" 1)
              eq_refl eq_refl eq_refl eq_refl eq_refl)
    as [guess [Hstored [_ [_ [_ [_ Hrest]]]]]].
  destruct (Hrest Hascii) as [_ [Hjane _]].
  exists guess. split; [exact Hstored | exact (Hjane eq_refl eq_refl)].
Defined.

(** C2. Whenever the handler answers 201, the body is the stored guess,
    and it carries [targetRealName] exactly when that guess is correct; the
    name it then carries is the target's real name, and the body of an
    incorrect guess has no such property. *)
Theorem postGuess_reveals_iff_correct
    (toLowerCase : string -> string) (s : MemStorage) (now : Z) (req : Request) :
  status (result (postGuess toLowerCase now req) s) = 201 ->
  exists guess revealed tgt,
    json (result (postGuess toLowerCase now req) s) = GuessResult guess revealed
    /\ JsMap.get (Guess.id guess) (guesses (after (postGuess toLowerCase now req) s))
       = Some guess
    /\ result (getUser (Guess.targetId guess)) s = Some tgt
    /\ (revealed <> None <-> Guess.correct guess = true)
    /\ (Guess.correct guess = true -> revealed = Some (User.realName tgt))
    /\ (Guess.correct guess = false -> revealed = None).
Proof.
  unfold postGuess.
  destruct (user req) as [guesserId|] eqn:Hs; [|discriminate].
  destruct (parseInsertGuess _) as [parsed|] eqn:Hp; [|discriminate].
  rewrite result_bind, after_bind, !getUser_result, getUser_pure.
  destruct (JsMap.get (InsertGuess.targetId parsed) (users s)) as [tgt|] eqn:Hget;
    [|discriminate].
  intros _.
  set (ok := String.eqb _ _).
  eexists. exists (if ok then Some (User.realName tgt) else None), tgt.
  split; [reflexivity|]. cbn.
  split; [apply get_set_same|].
  split; [exact Hget|].
  destruct ok; repeat split; try congruence; try discriminate.
Qed.

Lemma postGuess_reveals_iff_correct_witness :
  status (result (postGuess Js.asciiLowerCase 40 (guessBy 2 1 "JANE DOE")) sampleStore) = 201
  /\ exists guess,
       json (result (postGuess Js.asciiLowerCase 40 (guessBy 2 1 "JANE DOE")) sampleStore)
         = GuessResult guess (Some "Jane Doe"%string)
       /\ Guess.correct guess = true.
Proof.
  split; [reflexivity|].
  destruct (postGuess_reveals_iff_correct Js.asciiLowerCase sampleStore 40
              (guessBy 2 1 "JANE DOE") eq_refl)
    as [guess [revealed [tgt [Hbody [_ [Htgt [_ [Hyes _]]]]]]]].
  exists guess. cbn in Hbody. injection Hbody as <- <-. split; reflexivity.
Defined.
End RoutesSpec.

(** * More about the store: users *)

Module UsersSpec.
Import JsMap JsMapFacts SortFacts StoreFacts.

(** [Array.prototype.find] answers the first element that passes. *)
Lemma find_first {A} (p : A -> bool) l :
  match find p l with
  | Some x => exists pre post,
      l = pre ++ x :: post /\ p x = true /\ forall y, In y pre -> p y = false
  | None => forall y, In y l -> p y = false
  end.
Proof.
  induction l as [|a l IH]; cbn; [tauto|].
  destruct (p a) eqn:E.
  - exists [], l. repeat split; [assumption | intros y []].
  - destruct (find p l) as [x|].
    + destruct IH as [pre [post [-> [Hx Hpre]]]].
      exists (a :: pre), post. repeat split; [assumption|].
      intros y [<- | Hy]; [assumption | now apply Hpre].
    + intros y [<- | Hy]; [assumption | now apply IH].
Qed.

Lemma find_app_none {A} (p : A -> bool) l x :
  find p l = None -> find p (l ++ [x]) = if p x then Some x else None.
Proof.
  induction l as [|a l IH]; cbn; [reflexivity|].
  destruct (p a); [discriminate | exact IH].
Qed.

Lemma find_app_some {A} (p : A -> bool) l l' y :
  find p l = Some y -> find p (l ++ l') = Some y.
Proof.
  induction l as [|a l IH]; cbn; [discriminate|].
  destruct (p a); [trivial | exact IH].
Qed.

Lemma users_after_createUser now d s :
  StoreOk s ->
  users (after (createUser now d) s)
  = users s ++ [(userCurrentId s, result (createUser now d) s)].
Proof.
  intros Hok. cbn. apply set_absent. eapply MapOk_fresh. apply Hok.
Qed.

Lemma eqb_false_neq a b : String.eqb a b = false <-> a <> b.
Proof. apply String.eqb_neq. Qed.

(** X1. Both lookups by name answer the user created first among those
    whose name, once [toLowerCase] is applied, is the query with
    [toLowerCase] applied, and answer undefined exactly when no stored user
    has such a name. *)
Theorem lookups_by_name_first_match
    (toLowerCase : string -> string) (s : MemStorage) (query : string) :
  match result (getUserByUsername toLowerCase query) s with
  | Some u => exists pre post,
      values (users s) = pre ++ u :: post
      /\ toLowerCase (User.username u) = toLowerCase query
      /\ forall v, In v pre -> toLowerCase (User.username v) <> toLowerCase query
  | None => forall v, In v (values (users s)) ->
      toLowerCase (User.username v) <> toLowerCase query
  end
  /\ match result (getUserByRealName toLowerCase query) s with
     | Some u => exists pre post,
         values (users s) = pre ++ u :: post
         /\ toLowerCase (User.realName u) = toLowerCase query
         /\ forall v, In v pre -> toLowerCase (User.realName v) <> toLowerCase query
     | None => forall v, In v (values (users s)) ->
         toLowerCase (User.realName v) <> toLowerCase query
     end.
Proof.
  unfold result, getUserByUsername, getUserByRealName, gets. cbn [fst]. split.
  - pose proof (find_first
      (fun user => String.eqb (toLowerCase (User.username user)) (toLowerCase query))
      (values (users s))) as H.
    destruct (find _ _) as [u|].
    + destruct H as [pre [post [Heq [Hu Hpre]]]]. exists pre, post.
      apply String.eqb_eq in Hu. repeat split; try assumption.
      intros v Hv. apply eqb_false_neq. now apply Hpre.
    + intros v Hv. apply eqb_false_neq. now apply H.
  - pose proof (find_first
      (fun user => String.eqb (toLowerCase (User.realName user)) (toLowerCase query))
      (values (users s))) as H.
    destruct (find _ _) as [u|].
    + destruct H as [pre [post [Heq [Hu Hpre]]]]. exists pre, post.
      apply String.eqb_eq in Hu. repeat split; try assumption.
      intros v Hv. apply eqb_false_neq. now apply Hpre.
    + intros v Hv. apply eqb_false_neq. now apply H.
Qed.

(** X2. Registering and looking up by username: in a store that upholds
    its invariant, a query that is the new username up to case (the two are
    the same once [toLowerCase] is applied) finds the new user when the
    lookup found nobody before; when it found an earlier user, [createUser]
    still registers the newcomer (under a fresh id), and the lookup keeps
    answering the earlier user. *)
Theorem createUser_then_getUserByUsername
    (toLowerCase : string -> string)
    (s : MemStorage) (now : Z) (d : InsertUser.t) (query : string) :
  StoreOk s ->
  toLowerCase (InsertUser.username d) = toLowerCase query ->
  let u := result (createUser now d) s in
  let s' := after (createUser now d) s in
  result (getUser (User.id u)) s' = Some u
  /\ (result (getUserByUsername toLowerCase query) s = None ->
      result (getUserByUsername toLowerCase query) s' = Some u)
  /\ (forall old, result (getUserByUsername toLowerCase query) s = Some old ->
      result (getUserByUsername toLowerCase query) s' = Some old
      /\ User.id old <> User.id u).
Proof.
  intros Hok Hq u s'. split; [|split].
  - subst u s'. cbn. apply get_set_same.
  - unfold result, getUserByUsername, gets. cbn [fst]. intros Hnone.
    subst s'. rewrite users_after_createUser by assumption.
    unfold values in *. rewrite map_app. cbn [map snd].
    rewrite find_app_none by exact Hnone.
    subst u. cbn [result createUser User.username].
    replace (User.username (result (createUser now d) s)) with (InsertUser.username d)
      by reflexivity.
    now rewrite Hq, String.eqb_refl.
  - unfold result at 1 2, getUserByUsername, gets. cbn [fst]. intros old Hold.
    subst s'. rewrite users_after_createUser by assumption.
    unfold values in *. rewrite map_app. split.
    + now apply find_app_some.
    + apply find_some in Hold. destruct Hold as [Hin _].
      apply in_map_iff in Hin. destruct Hin as [[k v] [Hv Hin]]. cbn in Hv. subst v.
      destruct Hok as [[_ Hall] _ _]. rewrite Forall_forall in Hall.
      destruct (Hall _ Hin) as [Hid Hlt]. cbn in Hid, Hlt.
      subst u. cbn. lia.
Qed.

Lemma createUser_then_getUserByUsername_witness :
  StoreOk sampleStore
  /\ Js.asciiLowerCase (InsertUser.username bob) = Js.asciiLowerCase "bob"
  /\ Js.asciiLowerCase
       (InsertUser.username
          (InsertUser.mk "Carol" "pw" "Carol Poe" "Blue Jay" 15 "MIL" "3C" "animal" "jay"))
     = Js.asciiLowerCase "CAROL"
  /\ option_map User.id
       (result (getUserByUsername Js.asciiLowerCase "bob")
          (after (createUser 50 bob) sampleStore))
     = Some 2
  /\ option_map User.id
       (result (getUserByUsername Js.asciiLowerCase "CAROL")
          (after (createUser 50
             (InsertUser.mk "Carol" "pw" "Carol Poe" "Blue Jay" 15 "MIL" "3C" "animal" "jay"))
             sampleStore))
     = Some 3.
Proof.
  split; [exact StorageSpec.sampleStore_ok|]. split; [reflexivity|]. split; [reflexivity|].
  split.
  - destruct (createUser_then_getUserByUsername Js.asciiLowerCase sampleStore 50 bob "bob"
                StorageSpec.sampleStore_ok eq_refl) as [_ [_ H]].
    destruct (H _ eq_refl) as [-> _]. reflexivity.
  - destruct (createUser_then_getUserByUsername Js.asciiLowerCase sampleStore 50
                (InsertUser.mk "Carol" "pw" "Carol Poe" "Blue Jay" 15 "MIL" "3C" "animal" "jay")
                "CAROL" StorageSpec.sampleStore_ok eq_refl) as [_ [H _]].
    rewrite (H eq_refl). reflexivity.
Defined.

(** X3. [createUser] hands out an id no stored user has, stamps
    [lastActive] with the current time, copies the draft, and puts the user
    at the end of the user list; every other user, every message, every guess
    and the other two counters are left as they were. *)
Theorem createUser_fresh_and_framed (s : MemStorage) (now : Z) (d : InsertUser.t) :
  StoreOk s ->
  let u := result (createUser now d) s in
  let s' := after (createUser now d) s in
  u = User.mk (userCurrentId s) (InsertUser.username d) (InsertUser.password d)
        (InsertUser.realName d) (InsertUser.fakeName d) (InsertUser.age d)
        (InsertUser.school d) (InsertUser.classInfo d) (InsertUser.avatarType d)
        (InsertUser.avatarId d) now
  /\ result (getUser (User.id u)) s = None
  /\ result (getUser (User.id u)) s' = Some u
  /\ (forall id, id <> User.id u -> result (getUser id) s' = result (getUser id) s)
  /\ result getAllUsers s' = result getAllUsers s ++ [u]
  /\ userCurrentId s' = userCurrentId s + 1
  /\ messages s' = messages s
  /\ guesses s' = guesses s
  /\ messageCurrentId s' = messageCurrentId s
  /\ guessCurrentId s' = guessCurrentId s.
Proof.
  intros Hok u s'. subst u s'.
  split; [reflexivity|]. split; [|split; [|split; [|split]]].
  - cbn. apply get_None_iff. eapply MapOk_fresh. apply Hok.
  - cbn. apply get_set_same.
  - intros id Hne. cbn in *. apply get_set_other. congruence.
  - unfold result at 1 2, getAllUsers, gets. cbn [fst].
    rewrite users_after_createUser by assumption.
    unfold values. now rewrite map_app.
  - cbn. repeat split.
Qed.

Lemma createUser_fresh_and_framed_witness :
  StoreOk sampleStore
  /\ User.id (result (createUser 50 bob) sampleStore) = 3
  /\ result (getUser 3) sampleStore = None
  /\ List.length (result getAllUsers (after (createUser 50 bob) sampleStore)) = 3%nat.
Proof.
  split; [exact StorageSpec.sampleStore_ok|].
  destruct (createUser_fresh_and_framed sampleStore 50 bob StorageSpec.sampleStore_ok)
    as [Hu [Hfresh [_ [_ [Hall _]]]]].
  split; [now rewrite Hu|]. split; [exact Hfresh|]. now rewrite Hall.
Defined.
End UsersSpec.

(** * More about the store: what every run keeps *)

Module RunSpec.
Import JsMap JsMapFacts SortFacts StoreFacts.

Lemma idsUpTo_succ n : 1 <= n -> idsUpTo (n + 1) = idsUpTo n ++ [n].
Proof.
  intros Hn. unfold idsUpTo.
  replace (Z.to_nat (n + 1 - 1)) with (S (Z.to_nat (n - 1))) by lia.
  rewrite seq_S, map_app. cbn [map]. f_equal. f_equal. lia.
Qed.

Lemma idsUpTo_fresh n : ~ In n (idsUpTo n).
Proof.
  unfold idsUpTo. rewrite in_map_iff. intros [k [Hk Hin]].
  apply in_seq in Hin. lia.
Qed.

Lemma keys_set_fresh {V} (m : t V) next v :
  keys m = idsUpTo next -> 1 <= next ->
  keys (set next v m) = idsUpTo (next + 1).
Proof.
  intros Hk Hn. rewrite set_absent.
  - unfold keys in *. rewrite map_app, Hk. cbn. now rewrite idsUpTo_succ.
  - rewrite Hk. apply idsUpTo_fresh.
Qed.

Lemma ids_are_keys {V} (idOf : V -> Z) next (m : t V) :
  MapOk idOf next m -> map idOf (values m) = keys m.
Proof.
  intros [_ Hall]. unfold values, keys. rewrite map_map.
  induction Hall as [|e l [He _] _ IH]; [reflexivity|]. cbn. now rewrite He, IH.
Qed.

Lemma Reachable_keys s :
  Reachable s ->
  (1 <= userCurrentId s /\ keys (users s) = idsUpTo (userCurrentId s))
  /\ (1 <= messageCurrentId s /\ keys (messages s) = idsUpTo (messageCurrentId s))
  /\ (1 <= guessCurrentId s /\ keys (guesses s) = idsUpTo (guessCurrentId s)).
Proof.
  induction 1 as [|s now d H IH|s now id H IH|s now d H IH|s a b H IH|s now d H IH].
  - cbn. repeat split; lia.
  - destruct IH as [[Hu1 Hu2] [Hm Hg]]. cbn. repeat split; try tauto; try lia.
    now apply keys_set_fresh.
  - destruct IH as [[Hu1 Hu2] [Hm Hg]].
    unfold updateUserLastActive. rewrite after_bind, getUser_pure, getUser_result.
    destruct (get id (users s)) as [user|] eqn:E; [|cbn; tauto].
    cbn -[keys]. repeat split; try tauto.
    rewrite keys_set_present; [assumption|].
    apply get_Some_In in E. unfold keys. change id with (fst (id, user)). now apply in_map.
  - destruct IH as [Hu [[Hm1 Hm2] Hg]]. cbn. repeat split; try tauto; try lia.
    now apply keys_set_fresh.
  - destruct IH as [Hu [[Hm1 Hm2] Hg]].
    rewrite markMessagesAsRead_after by (apply Reachable_StoreOk in H; apply H).
    cbn -[keys]. rewrite keys_markEntry. tauto.
  - destruct IH as [Hu [Hm [Hg1 Hg2]]]. cbn. repeat split; try tauto; try lia.
    now apply keys_set_fresh.
Qed.

(** X4. Identifiers are handed out in sequence and never again: in every
    store the server can reach, the users, listed in creation order, carry
    the ids 1, 2, ... up to one below the user counter, and so do the
    messages and the guesses with their counters; nothing is ever removed. *)
Theorem Reachable_sequential_ids (s : MemStorage) :
  Reachable s ->
  map User.id (result getAllUsers s) = idsUpTo (userCurrentId s)
  /\ map Message.id (values (messages s)) = idsUpTo (messageCurrentId s)
  /\ map Guess.id (values (guesses s)) = idsUpTo (guessCurrentId s)
  /\ 1 <= userCurrentId s /\ 1 <= messageCurrentId s /\ 1 <= guessCurrentId s.
Proof.
  intros H. pose proof (Reachable_StoreOk s H) as [Hu Hm Hg].
  destruct (Reachable_keys s H) as [[Hu1 Hu2] [[Hm1 Hm2] [Hg1 Hg2]]].
  unfold result, getAllUsers, gets. cbn [fst].
  rewrite (ids_are_keys _ _ _ Hu), (ids_are_keys _ _ _ Hm), (ids_are_keys _ _ _ Hg).
  repeat split; assumption.
Qed.

Lemma sampleStore_reachable : Reachable sampleStore.
Proof.
  apply (R_createMessage _ 30 (InsertMessage.mk 1 2 "yes" (Js.Bool false))).
  apply (R_createMessage _ 20 (InsertMessage.mk 2 1 "you there?" (Js.Bool false))).
  apply (R_createMessage _ 10 (InsertMessage.mk 2 1 "hi" (Js.Bool false))).
  apply (R_createUser _ 2 bob).
  apply (R_createUser _ 1 jane).
  apply R_new.
Qed.

Lemma Reachable_sequential_ids_witness :
  Reachable sampleStore
  /\ map User.id (result getAllUsers sampleStore) = [1; 2]
  /\ map Message.id (values (messages sampleStore)) = [1; 2; 3].
Proof.
  split; [exact sampleStore_reachable|].
  destruct (Reachable_sequential_ids sampleStore sampleStore_reachable) as [H1 [H2 _]].
  split; [exact H1 | exact H2].
Defined.

(** ** Records are kept *)

Lemma Keeps_refl s : Keeps s s.
Proof.
  split.
  - intros k m H. exists m. repeat split; trivial.
  - intros k u H. exists u. now split.
  - trivial.
Qed.

Lemma Keeps_trans s1 s2 s3 : Keeps s1 s2 -> Keeps s2 s3 -> Keeps s1 s3.
Proof.
  intros [M1 U1 G1] [M2 U2 G2]. split.
  - intros k m H. destruct (M1 k m H) as [m' [H' [E1 T1]]].
    destruct (M2 k m' H') as [m'' [H'' [E2 T2]]].
    exists m''. repeat split; [assumption | unfold sameButRead in *; congruence | auto].
  - intros k u H. destruct (U1 k u H) as [u' [H' E1]].
    destruct (U2 k u' H') as [u'' [H'' E2]].
    exists u''. split; [assumption | unfold sameButLastActive in *; congruence].
  - auto.
Qed.

Lemma get_set_below {V} (idOf : V -> Z) next (m : t V) k v x :
  MapOk idOf next m -> get k m = Some x -> get k (set next v m) = Some x.
Proof.
  intros Hok H. rewrite get_set_other; [assumption|].
  pose proof (MapOk_get_lt idOf next m k x Hok H). lia.
Qed.

Lemma get_markEntry a b m k :
  get k (map (markEntry a b) m) = option_map (markMessage a b) (get k m).
Proof.
  induction m as [|[k' v] m IH]; [reflexivity|].
  cbn [map]. unfold markEntry at 1, markMessage. cbn [fst snd].
  destruct (unreadFromTo a b v) eqn:E; cbn; destruct (k' =? k); cbn; rewrite ?E; auto.
Qed.

Lemma markMessage_keeps a b m :
  sameButRead m (markMessage a b m)
  /\ (Message.read m = Js.Bool true -> Message.read (markMessage a b m) = Js.Bool true).
Proof.
  unfold markMessage, sameButRead. destruct (unreadFromTo a b m); cbn; auto.
Qed.

Lemma Step_Keeps s s' : StoreOk s -> Step s s' -> Keeps s s'.
Proof.
  intros [Hu Hm Hg] HS. destruct HS as [s now d|s now id|s now d|s a b|s now d].
  - split; cbn; intros k x H.
    + exists x. repeat split; trivial.
    + exists x. split; [|reflexivity]. eapply get_set_below; eassumption.
    + assumption.
  - unfold updateUserLastActive. rewrite after_bind, getUser_pure, getUser_result.
    destruct (get id (users s)) as [user|] eqn:E; [|apply Keeps_refl].
    split; cbn; intros k x H.
    + exists x. repeat split; trivial.
    + destruct (Z.eq_dec id k) as [<- | Hne].
      * rewrite get_set_same. rewrite E in H. injection H as <-.
        eexists. split; reflexivity.
      * rewrite get_set_other by assumption. exists x. now split.
    + assumption.
  - split; cbn; intros k x H.
    + exists x. repeat split; trivial. eapply get_set_below; eassumption.
    + exists x. now split.
    + assumption.
  - rewrite markMessagesAsRead_after by apply Hm.
    split; cbn; intros k x H.
    + rewrite get_markEntry, H. cbn. eexists. split; [reflexivity|].
      apply markMessage_keeps.
    + exists x. now split.
    + assumption.
  - split; cbn; intros k x H.
    + exists x. repeat split; trivial.
    + exists x. now split.
    + eapply get_set_below; eassumption.
Qed.

Lemma Step_Reachable s s' : Reachable s -> Step s s' -> Reachable s'.
Proof.
  intros H HS. destruct HS; now constructor.
Qed.

(** X5. Nothing a run of the store does removes or rewrites a record:
    from a reachable store on, whatever methods are called, each message
    stays under its id with its sender, receiver, content and timestamp, and a
    [read] that is true stays true; each user stays under its id and changes
    in [lastActive] at most; each guess stays exactly as it was stored. *)
Theorem Steps_keep_records (s s' : MemStorage) :
  Reachable s -> Steps s s' -> Keeps s s' /\ Reachable s'.
Proof.
  intros HR HS. induction HS as [s|s s' s'' HS IH Hlast].
  - split; [apply Keeps_refl | assumption].
  - destruct (IH HR) as [HK HR']. split.
    + eapply Keeps_trans; [exact HK|].
      apply Step_Keeps; [now apply Reachable_StoreOk | assumption].
    + eapply Step_Reachable; eassumption.
Qed.

Lemma Steps_keep_records_witness :
  Reachable sampleStore
  /\ Steps sampleStore
       (after (createUser 60 bob) (after (markMessagesAsRead 2 1) sampleStore))
  /\ exists m',
       get 1 (messages (after (createUser 60 bob)
                          (after (markMessagesAsRead 2 1) sampleStore))) = Some m'
       /\ sameButRead (Message.mk 1 2 1 "hi" 10 (Js.Bool false)) m'.
Proof.
  assert (HS : Steps sampleStore
                 (after (createUser 60 bob) (after (markMessagesAsRead 2 1) sampleStore))).
  { eapply Steps_step; [eapply Steps_step; [apply Steps_refl|]|]; constructor. }
  split; [exact sampleStore_reachable|]. split; [exact HS|].
  destruct (Steps_keep_records _ _ sampleStore_reachable HS) as [[HM _ _] _].
  destruct (HM 1 (Message.mk 1 2 1 "hi" 10 (Js.Bool false)) eq_refl) as [m' [H1 [H2 _]]].
  exists m'. split; assumption.
Defined.
End RunSpec.

(** * More about the store: messages and guesses *)

Module ThreadsSpec.
Import JsMap JsMapFacts SortFacts StoreFacts.

(** The sort is stable: elements that compare equal keep their order. Here
    [p] picks a class of elements that compare equal, in that whatever sorts
    strictly before a member is not a member. *)
Section Stable.
Context {A : Type} (compareFn : A -> A -> Z) (p : A -> bool).
Hypothesis class : forall x y, p x = true -> 0 < compareFn x y -> p y = false.

Lemma filter_insert_class x l :
  filter p (Js.insert compareFn x l) = if p x then x :: filter p l else filter p l.
Proof.
  induction l as [|y r IH]; cbn; [reflexivity|].
  destruct (compareFn x y <=? 0) eqn:E; cbn; [reflexivity|].
  apply Z.leb_gt in E. rewrite IH.
  destruct (p x) eqn:Ex; [|reflexivity].
  now rewrite (class x y Ex E).
Qed.

Lemma filter_sort_class l : filter p (Js.sort compareFn l) = filter p l.
Proof.
  induction l as [|x r IH]; cbn; [reflexivity|].
  rewrite filter_insert_class, IH. reflexivity.
Qed.
End Stable.

Lemma messages_after_createMessage now d s :
  StoreOk s ->
  messages (after (createMessage now d) s)
  = messages s ++ [(messageCurrentId s, result (createMessage now d) s)].
Proof.
  intros Hok. cbn. apply set_absent. eapply MapOk_fresh. apply Hok.
Qed.

Lemma next_unused {V} (idOf : V -> Z) next (m : t V) :
  MapOk idOf next m -> filter (fun x => idOf x =? next) (values m) = [].
Proof.
  intros [_ Hall]. unfold values.
  induction Hall as [|[k v] l [Hid Hlt] _ IH]; [reflexivity|].
  cbn in *. rewrite IH.
  destruct (idOf v =? next) eqn:E; [|reflexivity].
  apply Z.eqb_eq in E. lia.
Qed.

Lemma guesses_after_createGuess now d s :
  StoreOk s ->
  guesses (after (createGuess now d) s)
  = guesses s ++ [(guessCurrentId s, result (createGuess now d) s)].
Proof.
  intros Hok. cbn. apply set_absent. eapply MapOk_fresh. apply Hok.
Qed.

(** X6. A new message counts as unread for its receiver, and for nobody
    else, unless its draft says it is read: after [createMessage] the unread
    count of [r] is one more than before when [r] is the receiver and the
    draft's [read] is false, null or missing, and is what it was
    otherwise. *)
Theorem createMessage_unread_count
    (s : MemStorage) (now : Z) (d : InsertMessage.t) (r : Z) :
  StoreOk s ->
  result (getUnreadMessagesCount r) (after (createMessage now d) s)
  = result (getUnreadMessagesCount r) s
    + (if (InsertMessage.receiverId d =? r) && negb (Js.truthy (InsertMessage.read d))
       then 1 else 0).
Proof.
  intros Hok. unfold result at 1 2, getUnreadMessagesCount, gets. cbn [fst].
  rewrite messages_after_createMessage by assumption.
  unfold values. rewrite map_app, filter_app, length_app. cbn [map snd filter].
  unfold unreadFor at 2. cbn [result createMessage Message.receiverId Message.read].
  replace (Message.receiverId (result (createMessage now d) s))
    with (InsertMessage.receiverId d) by reflexivity.
  replace (Message.read (result (createMessage now d) s))
    with (InsertMessage.read d) by reflexivity.
  destruct ((InsertMessage.receiverId d =? r) && negb (Js.truthy (InsertMessage.read d)));
    cbn [List.length]; lia.
Qed.

Lemma createMessage_unread_count_witness :
  StoreOk sampleStore
  /\ result (getUnreadMessagesCount 1)
       (after (createMessage 40 (InsertMessage.mk 2 1 "hello?" Js.Null)) sampleStore)
     = 2 + 1
  /\ result (getUnreadMessagesCount 2)
       (after (createMessage 40 (InsertMessage.mk 2 1 "hello?" Js.Null)) sampleStore)
     = 1 + 0.
Proof.
  split; [exact StorageSpec.sampleStore_ok|]. split.
  - exact (createMessage_unread_count sampleStore 40
             (InsertMessage.mk 2 1 "hello?" Js.Null) 1 StorageSpec.sampleStore_ok).
  - exact (createMessage_unread_count sampleStore 40
             (InsertMessage.mk 2 1 "hello?" Js.Null) 2 StorageSpec.sampleStore_ok).
Defined.

(** X7. In a thread, messages that carry the same timestamp come in the
    order in which they were stored. *)
Theorem getMessagesBetweenUsers_ties_in_creation_order
    (s : MemStorage) (a b t : Z) :
  filter (fun m => Message.timestamp m =? t) (result (getMessagesBetweenUsers a b) s)
  = filter (fun m => Message.timestamp m =? t)
      (filter (between a b) (values (messages s))).
Proof.
  unfold result, getMessagesBetweenUsers, gets. cbn [fst].
  apply filter_sort_class. unfold byTimestampAsc. intros x y Hx Hlt.
  apply Z.eqb_eq in Hx. apply Z.eqb_neq. lia.
Qed.

(** X8. [getGuessesForUser] answers exactly the stored guesses the user
    made or was the target of, each as often as it is stored, the latest
    first and those of one timestamp in the order they were stored; it leaves
    the store as it was. *)
Theorem getGuessesForUser_exact_sorted (s : MemStorage) (userId : Z) :
  let list := result (getGuessesForUser userId) s in
  (forall g, In g list <->
     In g (values (guesses s))
     /\ (Guess.guesserId g = userId \/ Guess.targetId g = userId))
  /\ Permutation list
       (filter (fun g => (Guess.guesserId g =? userId) || (Guess.targetId g =? userId))
               (values (guesses s)))
  /\ StronglySorted (fun g g' => Guess.timestamp g' <= Guess.timestamp g) list
  /\ (forall t,
        filter (fun g => Guess.timestamp g =? t) list
        = filter (fun g => Guess.timestamp g =? t)
            (filter (fun g => (Guess.guesserId g =? userId) || (Guess.targetId g =? userId))
                    (values (guesses s))))
  /\ after (getGuessesForUser userId) s = s.
Proof.
  cbn. split; [|split; [|split; [|split]]].
  - intros g. rewrite sort_In, filter_In, orb_true_iff, !Z.eqb_eq. reflexivity.
  - apply sort_Permutation.
  - apply sort_StronglySorted; unfold byGuessTimestampDesc; intros; lia.
  - intros t. apply filter_sort_class. unfold byGuessTimestampDesc. intros x y Hx Hlt.
    apply Z.eqb_eq in Hx. apply Z.eqb_neq. lia.
  - reflexivity.
Qed.

(** X9. [createGuess] stores the draft as it is, [correct] included (the
    store does not look at the target's name), under the next id and with the
    current time; right after, the guess is exactly once in the list of its
    guesser and in the list of its target, and the list of any other user is
    what it was. *)
Theorem createGuess_round_trip (s : MemStorage) (now : Z) (d : InsertGuess.t) :
  StoreOk s ->
  let g := result (createGuess now d) s in
  let s' := after (createGuess now d) s in
  g = Guess.mk (guessCurrentId s) (InsertGuess.guesserId d) (InsertGuess.targetId d)
        (InsertGuess.guessedName d) (InsertGuess.correct d) now
  /\ get (Guess.id g) (guesses s') = Some g
  /\ filter (fun x => Guess.id x =? Guess.id g)
       (result (getGuessesForUser (InsertGuess.guesserId d)) s') = [g]
  /\ filter (fun x => Guess.id x =? Guess.id g)
       (result (getGuessesForUser (InsertGuess.targetId d)) s') = [g]
  /\ (forall w, w <> InsertGuess.guesserId d -> w <> InsertGuess.targetId d ->
        result (getGuessesForUser w) s' = result (getGuessesForUser w) s)
  /\ users s' = users s /\ messages s' = messages s.
Proof.
  intros Hok g s'.
  assert (Hs' : values (guesses s') = values (guesses s) ++ [g]).
  { subst s' g. rewrite guesses_after_createGuess by assumption.
    unfold values. now rewrite map_app. }
  assert (Hold : filter (fun x => Guess.id x =? guessCurrentId s) (values (guesses s)) = []).
  { eapply next_unused. apply Hok. }
  assert (Honce : forall w,
            (Guess.guesserId g =? w) || (Guess.targetId g =? w) = true ->
            filter (fun x => Guess.id x =? Guess.id g)
              (result (getGuessesForUser w) s') = [g]).
  { intros w Hw. unfold result, getGuessesForUser, gets. cbn [fst].
    apply Permutation_length_1_inv.
    etransitivity; [|apply filter_Permutation; symmetry; apply sort_Permutation].
    rewrite Hs', !filter_app. cbn [filter]. rewrite Hw. cbn [filter].
    rewrite Z.eqb_refl.
    replace (Guess.id g) with (guessCurrentId s) by reflexivity.
    rewrite StorageSpec.filter_filter_nil by exact Hold. reflexivity. }
  split; [reflexivity|]. split; [subst g s'; cbn; apply get_set_same|].
  split; [|split; [|split]].
  - apply Honce. subst g. cbn. now rewrite Z.eqb_refl.
  - apply Honce. subst g. cbn. rewrite Z.eqb_refl. apply orb_true_r.
  - intros w Hg Ht. unfold result, getGuessesForUser, gets. cbn [fst].
    rewrite Hs', filter_app. cbn [filter].
    replace ((Guess.guesserId g =? w) || (Guess.targetId g =? w)) with false.
    + now rewrite app_nil_r.
    + symmetry. subst g. cbn. apply orb_false_iff. split; apply Z.eqb_neq; congruence.
  - split; reflexivity.
Qed.

Lemma createGuess_round_trip_witness :
  StoreOk sampleStore
  /\ Guess.correct (result (createGuess 40 (InsertGuess.mk 2 1 "Bob Ray" true)) sampleStore)
     = true
  /\ List.length
       (result (getGuessesForUser 1)
          (after (createGuess 40 (InsertGuess.mk 2 1 "Bob Ray" true)) sampleStore))
     = 1%nat.
Proof.
  split; [exact StorageSpec.sampleStore_ok|].
  destruct (createGuess_round_trip sampleStore 40 (InsertGuess.mk 2 1 "Bob Ray" true)
              StorageSpec.sampleStore_ok) as [Hg [_ [_ [Ht _]]]].
  split; [now rewrite Hg | reflexivity].
Defined.
Lemma unreadFor_markMessage a b r m :
  r <> b -> unreadFor r (markMessage a b m) = unreadFor r m.
Proof.
  intros Hne. unfold markMessage. destruct (unreadFromTo a b m) eqn:E; [|reflexivity].
  unfold unreadFromTo in E. unfold unreadFor. cbn.
  apply andb_true_iff in E. destruct E as [E _].
  apply andb_true_iff in E. destruct E as [_ E]. apply Z.eqb_eq in E.
  rewrite E. destruct (b =? r) eqn:Eb; [|reflexivity].
  apply Z.eqb_eq in Eb. congruence.
Qed.

(** X20. [markMessagesAsRead a b] touches the messages from [a] to [b]
    and nothing else: each of them ends up with [read: true] and is otherwise
    as it was; every other message, every user, every guess and the counters
    are untouched, and so is the unread count of everybody but [b]. *)
Theorem markMessagesAsRead_frame (s : MemStorage) (a b : Z) :
  wellFormed (messages s) ->
  let s' := after (markMessagesAsRead a b) s in
  (forall k m, get k (messages s) = Some m ->
     exists m', get k (messages s') = Some m'
       /\ sameButRead m m'
       /\ (Message.senderId m = a /\ Message.receiverId m = b ->
           Message.read m' = Js.Bool true)
       /\ (~ (Message.senderId m = a /\ Message.receiverId m = b) -> m' = m))
  /\ keys (messages s') = keys (messages s)
  /\ users s' = users s
  /\ guesses s' = guesses s
  /\ (userCurrentId s', messageCurrentId s', guessCurrentId s')
     = (userCurrentId s, messageCurrentId s, guessCurrentId s)
  /\ forall r, r <> b ->
       result (getUnreadMessagesCount r) s' = result (getUnreadMessagesCount r) s.
Proof.
  intros Hwf s'. subst s'. rewrite markMessagesAsRead_after by assumption.
  split; [|split; [|split; [|split; [|split]]]]; try reflexivity.
  - intros k m Hget. cbn [with_messages messages].
    rewrite RunSpec.get_markEntry, Hget. cbn [option_map].
    eexists. split; [reflexivity|].
    split; [apply RunSpec.markMessage_keeps|].
    unfold markMessage, unreadFromTo. split.
    + intros [Hs Hr]. rewrite Hs, Hr, !Z.eqb_refl. cbn.
      destruct (Message.read m) as [| |[|]] eqn:Eread; cbn; try reflexivity.
      exact Eread.
    + intros Hn.
      destruct (Message.senderId m =? a) eqn:Es; [|reflexivity].
      destruct (Message.receiverId m =? b) eqn:Er; [|reflexivity].
      apply Z.eqb_eq in Es, Er. tauto.
  - cbn [with_messages messages]. apply keys_markEntry.
  - intros r Hr. unfold result, getUnreadMessagesCount, gets.
    cbn [fst with_messages messages]. rewrite StorageSpec.values_markEntry.
    f_equal.
    induction (values (messages s)) as [|m l IH]; [reflexivity|].
    cbn [map filter]. rewrite (unreadFor_markMessage a b r m Hr).
    destruct (unreadFor r m); cbn [List.length]; now rewrite IH.
Qed.

Lemma markMessagesAsRead_frame_witness :
  wellFormed (messages sampleStore)
  /\ get 3 (messages (after (markMessagesAsRead 2 1) sampleStore))
     = Some (Message.mk 3 1 2 "yes" 30 (Js.Bool false))
  /\ result (getUnreadMessagesCount 2) (after (markMessagesAsRead 2 1) sampleStore) = 1.
Proof.
  pose proof (proj1 (messages_ok _ StorageSpec.sampleStore_ok)) as Hwf.
  split; [exact Hwf|].
  destruct (markMessagesAsRead_frame sampleStore 2 1 Hwf) as [Hm [_ [_ [_ [_ Hc]]]]].
  split.
  - destruct (Hm 3 (Message.mk 3 1 2 "yes" 30 (Js.Bool false)) eq_refl)
      as [m' [Hget [_ [_ Hsame]]]].
    rewrite Hget. f_equal. apply Hsame. cbn. intros [H _]. discriminate H.
  - rewrite (Hc 2); [reflexivity | discriminate].
Defined.

End ThreadsSpec.

(** * More about the conversation list *)

Module ConversationsSpec.
Import JsMap JsMapFacts SortFacts StoreFacts.

(** The entry the loop adds for one counterpart, if any. *)
Lemma buildConversations_result userId allMessages ids : forall conversations s,
  result (buildConversations userId allMessages ids conversations) s
  = conversations
    ++ flat_map (fun otherUserId =>
         match get otherUserId (users s) with
         | Some otherUser => [conversationWith userId allMessages otherUserId otherUser]
         | None => []
         end) ids.
Proof.
  induction ids as [|o rest IH]; intros conversations s.
  - cbn. now rewrite app_nil_r.
  - cbn [buildConversations flat_map]. rewrite result_bind, getUser_pure, getUser_result.
    destruct (get o (users s)); rewrite IH; [now rewrite <- app_assoc | reflexivity].
Qed.

Lemma getConversationsForUser_result userId s :
  result (getConversationsForUser userId) s
  = Js.sort byLastMessageTime
      (flat_map (fun otherUserId =>
         match get otherUserId (users s) with
         | Some otherUser =>
             [conversationWith userId (values (messages s)) otherUserId otherUser]
         | None => []
         end) (interacted userId (values (messages s)))).
Proof.
  unfold getConversationsForUser. rewrite !result_bind, !after_gets.
  rewrite buildConversations_result. reflexivity.
Qed.

(** ** The counterparts found by the first pass *)

Lemma has_false k ids : JsSet.has k ids = false -> ~ In k ids.
Proof.
  unfold JsSet.has. intros H Hin.
  apply Bool.not_true_iff_false in H. apply H.
  apply existsb_exists. exists k. split; [assumption | apply Z.eqb_refl].
Qed.

Lemma add_In k o ids : In o (JsSet.add k ids) <-> In o ids \/ o = k.
Proof.
  unfold JsSet.add. destruct (JsSet.has k ids) eqn:E.
  - split; [tauto|]. intros [H | ->]; [assumption|].
    unfold JsSet.has in E. apply existsb_exists in E.
    destruct E as [x [Hx Hk]]. apply Z.eqb_eq in Hk. now subst.
  - rewrite in_app_iff. cbn. intuition congruence.
Qed.

Lemma add_NoDup k ids : NoDup ids -> NoDup (JsSet.add k ids).
Proof.
  intros H. unfold JsSet.add. destruct (JsSet.has k ids) eqn:E; [assumption|].
  apply (Permutation_NoDup (l := k :: ids)); [apply Permutation_cons_append|].
  constructor; [now apply has_false | assumption].
Qed.

Lemma collect_In userId allMessages : forall ids o,
  In o (fold_left
          (fun ids message =>
             if Message.senderId message =? userId
             then JsSet.add (Message.receiverId message) ids
             else if Message.receiverId message =? userId
                  then JsSet.add (Message.senderId message) ids
                  else ids)
          allMessages ids)
  <-> In o ids \/ exists m, In m allMessages /\ between userId o m = true.
Proof.
  induction allMessages as [|m l IH]; intros ids o; cbn [fold_left].
  - split; [tauto|]. intros [H | [m [[] _]]]. assumption.
  - rewrite IH. unfold between.
    destruct (Message.senderId m =? userId) eqn:Es;
      [|destruct (Message.receiverId m =? userId) eqn:Er];
      rewrite ?add_In; split.
    + intros [[H | ->] | [x [Hx Hb]]]; [now left | |].
      * right. exists m. split; [now left|]. now rewrite Es, Z.eqb_refl.
      * right. exists x. split; [now right | assumption].
    + intros [H | [x [[<- | Hx] Hb]]]; [left; now left | |].
      * rewrite Es in Hb. cbn in Hb. apply orb_true_iff in Hb.
        destruct Hb as [Hb | Hb].
        -- apply Z.eqb_eq in Hb. left. now right.
        -- apply andb_true_iff in Hb. destruct Hb as [H1 H2].
           apply Z.eqb_eq in H1, H2, Es. left. right. congruence.
      * right. exists x. split; assumption.
    + intros [[H | ->] | [x [Hx Hb]]]; [now left | |].
      * right. exists m. split; [now left|]. rewrite Er, Z.eqb_refl. cbn.
        apply orb_true_r.
      * right. exists x. split; [now right | assumption].
    + intros [H | [x [[<- | Hx] Hb]]]; [left; now left | |].
      * rewrite Es, Er in Hb. cbn in Hb. rewrite andb_true_r in Hb.
        apply Z.eqb_eq in Hb. left. now right.
      * right. exists x. split; assumption.
    + intros [H | [x [Hx Hb]]]; [now left|]. right. exists x. split; [now right | assumption].
    + intros [H | [x [[<- | Hx] Hb]]]; [now left | |].
      * rewrite Es, Er in Hb. cbn in Hb. rewrite andb_false_r in Hb. discriminate.
      * right. exists x. split; assumption.
Qed.

Lemma collect_NoDup userId allMessages : forall ids,
  NoDup ids ->
  NoDup (fold_left
           (fun ids message =>
              if Message.senderId message =? userId
              then JsSet.add (Message.receiverId message) ids
              else if Message.receiverId message =? userId
                   then JsSet.add (Message.senderId message) ids
                   else ids)
           allMessages ids).
Proof.
  induction allMessages as [|m l IH]; intros ids H; cbn [fold_left]; [assumption|].
  apply IH.
  destruct (Message.senderId m =? userId); [now apply add_NoDup|].
  destruct (Message.receiverId m =? userId); [now apply add_NoDup | assumption].
Qed.

Lemma interacted_In userId allMessages o :
  In o (interacted userId allMessages)
  <-> exists m, In m allMessages /\ between userId o m = true.
Proof.
  unfold interacted. rewrite collect_In. cbn. tauto.
Qed.

Lemma interacted_NoDup userId allMessages : NoDup (interacted userId allMessages).
Proof. apply collect_NoDup. constructor. Qed.

(** ** Who is in the list *)

Lemma userIds_of_entries s userId allMessages ids :
  StoreOk s ->
  map Conversation.userId
    (flat_map (fun o =>
       match get o (users s) with
       | Some otherUser => [conversationWith userId allMessages o otherUser]
       | None => []
       end) ids)
  = filter (fun o => match get o (users s) with Some _ => true | None => false end) ids.
Proof.
  intros Hok. induction ids as [|o rest IH]; [reflexivity|].
  cbn [flat_map filter]. rewrite map_app, IH.
  destruct (get o (users s)) as [ou|] eqn:E; [|reflexivity].
  cbn. f_equal. eapply MapOk_get; [apply Hok | exact E].
Qed.

(** X10. The conversation list of a user has one entry for each
    counterpart that still has a user record, and no other entry: whoever
    exchanged a message with the user and can be looked up is there exactly
    once; a counterpart whose record is missing is passed over. *)
Theorem getConversationsForUser_entries (s : MemStorage) (userId : Z) :
  StoreOk s ->
  let ids := map Conversation.userId (result (getConversationsForUser userId) s) in
  NoDup ids
  /\ forall o, In o ids <->
       counterpart userId o s /\ result (getUser o) s <> None.
Proof.
  intros Hok ids. subst ids. rewrite getConversationsForUser_result.
  set (entries := flat_map _ _).
  assert (Hperm : Permutation (map Conversation.userId (Js.sort byLastMessageTime entries))
                              (map Conversation.userId entries)).
  { apply Permutation_map, sort_Permutation. }
  subst entries. rewrite (userIds_of_entries s userId _ _ Hok) in Hperm.
  split.
  - eapply Permutation_NoDup; [symmetry; exact Hperm|].
    apply NoDup_filter, interacted_NoDup.
  - intros o. split.
    + intros H. apply (Permutation_in _ Hperm) in H.
      apply filter_In in H. destruct H as [Hin Hu].
      split; [now apply interacted_In in Hin|].
      rewrite getUser_result. now destruct (get o (users s)).
    + intros [Hc Hu]. apply (Permutation_in _ (Permutation_sym Hperm)).
      apply filter_In. split; [now apply interacted_In|].
      rewrite getUser_result in Hu. now destruct (get o (users s)).
Qed.

Lemma getConversationsForUser_entries_witness :
  StoreOk sampleStore
  /\ map Conversation.userId (result (getConversationsForUser 1) sampleStore) = [2]
  /\ counterpart 1 2 sampleStore.
Proof.
  split; [exact StorageSpec.sampleStore_ok|]. split; [reflexivity|].
  destruct (getConversationsForUser_entries sampleStore 1 StorageSpec.sampleStore_ok)
    as [_ H].
  apply (H 2). now left.
Defined.
(** ** What an entry says *)

Lemma entries_In s userId c :
  In c (result (getConversationsForUser userId) s) ->
  exists o otherUser,
    In o (interacted userId (values (messages s)))
    /\ get o (users s) = Some otherUser
    /\ c = conversationWith userId (values (messages s)) o otherUser.
Proof.
  rewrite getConversationsForUser_result, sort_In, in_flat_map.
  intros [o [Ho Hc]]. exists o.
  destruct (get o (users s)) as [ou|]; [|destruct Hc].
  destruct Hc as [<- | []]. exists ou. repeat split. assumption.
Qed.

Lemma sort_byTimestampDesc l :
  StronglySorted (fun a b => Message.timestamp b <= Message.timestamp a)
                 (Js.sort byTimestampDesc l).
Proof.
  apply sort_StronglySorted; unfold byTimestampDesc; intros; lia.
Qed.

Lemma conversationWith_last userId allMessages o otherUser m0 :
  In m0 allMessages -> between userId o m0 = true ->
  exists m,
    In m allMessages /\ between userId o m = true
    /\ Conversation.lastMessageTime (conversationWith userId allMessages o otherUser)
       = Some (Message.timestamp m)
    /\ Conversation.lastMessage (conversationWith userId allMessages o otherUser)
       = Some (Message.content m)
    /\ forall m', In m' allMessages -> between userId o m' = true ->
         Message.timestamp m' <= Message.timestamp m.
Proof.
  intros Hin Hb. unfold conversationWith. cbn.
  pose proof (sort_byTimestampDesc (filter (between userId o) allMessages)) as Hs.
  assert (Hmem : forall x, In x (Js.sort byTimestampDesc (filter (between userId o) allMessages))
                           <-> In x allMessages /\ between userId o x = true).
  { intros x. now rewrite sort_In, filter_In. }
  destruct (Js.sort byTimestampDesc (filter (between userId o) allMessages)) as [|h tl].
  - exfalso. apply (proj2 (Hmem m0)). now split.
  - exists h. destruct (proj1 (Hmem h) (or_introl eq_refl)) as [Hh1 Hh2].
    repeat split; try assumption.
    intros m' Hm' Hb'. apply StronglySorted_inv in Hs. destruct Hs as [_ Hall].
    rewrite Forall_forall in Hall.
    destruct (proj2 (Hmem m') (conj Hm' Hb')) as [<- | Htl]; [lia | now apply Hall].
Qed.

Lemma filter_filter_implied {A} (p q : A -> bool) l :
  (forall x, p x = true -> q x = true) -> filter p (filter q l) = filter p l.
Proof.
  intros H. induction l as [|x l IH]; [reflexivity|]. cbn.
  destruct (q x) eqn:Eq; cbn; rewrite IH; [reflexivity|].
  destruct (p x) eqn:Ep; [|reflexivity].
  rewrite (H x Ep) in Eq. discriminate.
Qed.

Lemma unreadFromTo_between o userId m :
  unreadFromTo o userId m = true -> between userId o m = true.
Proof.
  unfold unreadFromTo, between. intros H.
  apply andb_true_iff in H. destruct H as [H _]. rewrite H. apply orb_true_r.
Qed.

Lemma conversationWith_unread userId allMessages o otherUser :
  Conversation.unreadCount (conversationWith userId allMessages o otherUser)
  = Z.of_nat (List.length (filter (unreadFromTo o userId) allMessages)).
Proof.
  unfold conversationWith. cbn. f_equal.
  rewrite <- (filter_filter_implied (unreadFromTo o userId) (between userId o) allMessages)
    by apply unreadFromTo_between.
  apply Permutation_length, filter_Permutation, sort_Permutation.
Qed.

(** X11. Every entry of the conversation list shows the counterpart's
    profile as stored and the latest message of the thread: the entry always
    has a [lastMessageTime], it is the timestamp of a message between the two,
    [lastMessage] is that message's content, and no message between the two
    is later. *)
Theorem getConversationsForUser_last_message
    (s : MemStorage) (userId : Z) (c : Conversation.t) :
  StoreOk s ->
  In c (result (getConversationsForUser userId) s) ->
  (exists otherUser,
     result (getUser (Conversation.userId c)) s = Some otherUser
     /\ Conversation.fakeName c = User.fakeName otherUser
     /\ Conversation.avatarType c = User.avatarType otherUser
     /\ Conversation.avatarId c = User.avatarId otherUser)
  /\ exists m,
       In m (values (messages s))
       /\ between userId (Conversation.userId c) m = true
       /\ Conversation.lastMessageTime c = Some (Message.timestamp m)
       /\ Conversation.lastMessage c = Some (Message.content m)
       /\ forall m', In m' (values (messages s)) ->
            between userId (Conversation.userId c) m' = true ->
            Message.timestamp m' <= Message.timestamp m.
Proof.
  intros Hok Hc. apply entries_In in Hc.
  destruct Hc as [o [ou [Ho [Hu ->]]]].
  assert (Hid : User.id ou = o) by (eapply MapOk_get; [apply Hok | exact Hu]).
  replace (Conversation.userId (conversationWith userId (values (messages s)) o ou))
    with o by (symmetry; exact Hid).
  split.
  - exists ou. rewrite getUser_result. repeat split. assumption.
  - apply interacted_In in Ho. destruct Ho as [m0 [Hm0 Hb0]].
    now apply (conversationWith_last userId _ o ou m0).
Qed.

Lemma getConversationsForUser_last_message_witness :
  StoreOk sampleStore
  /\ In (Conversation.mk 2 "Red Fox" "fantasy" "elf" (Some "yes"%string) (Some 30) 2)
        (result (getConversationsForUser 1) sampleStore)
  /\ exists m, In m (values (messages sampleStore)) /\ Message.timestamp m = 30.
Proof.
  split; [exact StorageSpec.sampleStore_ok|].
  assert (Hin : In (Conversation.mk 2 "Red Fox" "fantasy" "elf" (Some "yes"%string) (Some 30) 2)
                   (result (getConversationsForUser 1) sampleStore)) by (now left).
  split; [exact Hin|].
  destruct (getConversationsForUser_last_message sampleStore 1 _
              StorageSpec.sampleStore_ok Hin) as [_ [m [Hm [_ [Ht _]]]]].
  exists m. split; [exact Hm|]. cbn in Ht. congruence.
Defined.

Lemma unreadFromTo_markMessage o userId l :
  filter (unreadFromTo o userId) (map (markMessage o userId) l) = [].
Proof.
  induction l as [|m l IH]; [reflexivity|]. cbn [map filter]. rewrite IH.
  unfold markMessage. destruct (unreadFromTo o userId m) eqn:E; [|now rewrite E].
  unfold unreadFromTo. cbn. now rewrite andb_false_r.
Qed.

(** X12. The [unreadCount] of an entry is the number of messages the
    counterpart sent to the user that are not read yet; once
    [markMessagesAsRead] has run for that counterpart and the user, the entry
    of that counterpart shows 0. *)
Theorem getConversationsForUser_unread_count (s : MemStorage) (userId : Z) :
  StoreOk s ->
  (forall c, In c (result (getConversationsForUser userId) s) ->
     Conversation.unreadCount c = unreadFromToCount (Conversation.userId c) userId s)
  /\ (forall o c,
        In c (result (getConversationsForUser userId)
                     (after (markMessagesAsRead o userId) s)) ->
        Conversation.userId c = o -> Conversation.unreadCount c = 0).
Proof.
  intros Hok.
  assert (H1 : forall s', StoreOk s' ->
            forall c, In c (result (getConversationsForUser userId) s') ->
            Conversation.unreadCount c
            = unreadFromToCount (Conversation.userId c) userId s').
  { intros s' Hok' c Hc. apply entries_In in Hc.
    destruct Hc as [o [ou [Ho [Hu ->]]]].
    assert (Hid : User.id ou = o) by (eapply MapOk_get; [apply Hok' | exact Hu]).
    rewrite conversationWith_unread.
    replace (Conversation.userId (conversationWith userId (values (messages s')) o ou))
      with o by (symmetry; exact Hid).
    reflexivity. }
  split; [now apply H1|].
  intros o c Hc Ho.
  rewrite (H1 _ (StoreOk_markMessagesAsRead o userId s Hok) c Hc), Ho.
  rewrite markMessagesAsRead_after by apply Hok.
  unfold unreadFromToCount, with_messages. cbn [messages].
  rewrite StorageSpec.values_markEntry.
  change (fun m : Message.t =>
            (Message.senderId m =? o) && (Message.receiverId m =? userId)
            && negb (Js.truthy (Message.read m)))
    with (unreadFromTo o userId).
  now rewrite unreadFromTo_markMessage.
Qed.

Lemma getConversationsForUser_unread_count_witness :
  StoreOk sampleStore
  /\ In (Conversation.mk 2 "Red Fox" "fantasy" "elf" (Some "yes"%string) (Some 30) 2)
        (result (getConversationsForUser 1) sampleStore)
  /\ unreadFromToCount 2 1 sampleStore = 2
  /\ forall c,
       In c (result (getConversationsForUser 1) (after (markMessagesAsRead 2 1) sampleStore)) ->
       Conversation.userId c = 2 -> Conversation.unreadCount c = 0.
Proof.
  split; [exact StorageSpec.sampleStore_ok|].
  destruct (getConversationsForUser_unread_count sampleStore 1 StorageSpec.sampleStore_ok)
    as [H1 H2].
  assert (Hin : In (Conversation.mk 2 "Red Fox" "fantasy" "elf" (Some "yes"%string) (Some 30) 2)
                   (result (getConversationsForUser 1) sampleStore)) by (now left).
  split; [exact Hin|]. split.
  - symmetry. exact (H1 _ Hin).
  - exact (H2 2).
Defined.
(** ** The unread counts add up *)

Lemma totalUnread_app l l' : totalUnread (l ++ l') = totalUnread l + totalUnread l'.
Proof.
  unfold totalUnread. induction l as [|c l IH]; cbn; [reflexivity|]. rewrite IH. lia.
Qed.

Lemma totalUnread_Permutation l l' : Permutation l l' -> totalUnread l = totalUnread l'.
Proof.
  unfold totalUnread. induction 1 as [|x l l' H IH|x y l|l l' l'' H1 IH1 H2 IH2]; cbn; lia.
Qed.

Lemma list_sum_cons x l : list_sum (x :: l) = (x + list_sum l)%nat.
Proof. reflexivity. Qed.

Lemma list_sum_split {A} (f g : A -> nat) l :
  list_sum (map (fun x => f x + g x)%nat l) = (list_sum (map f l) + list_sum (map g l))%nat.
Proof.
  induction l as [|x l IH]; [reflexivity|].
  cbn [map]. rewrite !list_sum_cons, IH. lia.
Qed.

Lemma list_sum_zero {A} (f : A -> nat) l :
  (forall x, In x l -> f x = 0%nat) -> list_sum (map f l) = 0%nat.
Proof.
  induction l as [|x l IH]; [reflexivity|]. intros H.
  cbn [map]. rewrite list_sum_cons.
  rewrite (H x (or_introl eq_refl)), IH; [reflexivity|]. intros y Hy. apply H. now right.
Qed.

Lemma list_sum_le {A} (f g : A -> nat) l :
  (forall x, In x l -> (f x <= g x)%nat) ->
  (list_sum (map f l) <= list_sum (map g l))%nat.
Proof.
  induction l as [|x l IH]; [cbn; lia|]. intros H.
  cbn [map]. rewrite !list_sum_cons.
  pose proof (H x (or_introl eq_refl)).
  assert (list_sum (map f l) <= list_sum (map g l))%nat
    by (apply IH; intros y Hy; apply H; now right).
  lia.
Qed.

(** Among ids that are all different, exactly one is [x] when [x] is there. *)
Lemma list_sum_one (x : Z) ids :
  NoDup ids -> In x ids ->
  list_sum (map (fun o => if x =? o then 1%nat else 0%nat) ids) = 1%nat.
Proof.
  induction 1 as [|a ids Ha Hnd IH]; [intros []|]. cbn [map]. rewrite list_sum_cons.
  intros [-> | Hin].
  - rewrite Z.eqb_refl, list_sum_zero; [reflexivity|].
    intros y Hy. destruct (x =? y) eqn:E; [|reflexivity].
    apply Z.eqb_eq in E. subst. contradiction.
  - rewrite (IH Hin). destruct (x =? a) eqn:E; [|reflexivity].
    apply Z.eqb_eq in E. subst. contradiction.
Qed.

Lemma unread_by_sender userId ids l :
  NoDup ids ->
  (forall m, In m l -> unreadFor userId m = true -> In (Message.senderId m) ids) ->
  list_sum (map (fun o => List.length (filter (unreadFromTo o userId) l)) ids)
  = List.length (filter (unreadFor userId) l).
Proof.
  intros Hnd. induction l as [|m l IH]; intros Hin.
  - cbn. apply list_sum_zero. reflexivity.
  - rewrite (map_ext _ (fun o => ((if unreadFromTo o userId m then 1 else 0)
                                  + List.length (filter (unreadFromTo o userId) l))%nat))
      by (intros o; cbn; now destruct (unreadFromTo o userId m)).
    rewrite list_sum_split, IH by (intros x Hx; apply Hin; now right).
    cbn [filter]. destruct (unreadFor userId m) eqn:E.
    + rewrite (map_ext _ (fun o => if Message.senderId m =? o then 1%nat else 0%nat)).
      * rewrite list_sum_one; [reflexivity | assumption |].
        apply Hin; [now left | assumption].
      * intros o. unfold unreadFromTo. unfold unreadFor in E.
        rewrite <- andb_assoc, E. now rewrite andb_true_r.
    + rewrite list_sum_zero; [reflexivity|].
      intros o _. unfold unreadFromTo. unfold unreadFor in E.
      now rewrite <- andb_assoc, E, andb_false_r.
Qed.

Lemma totalUnread_entries s userId allMessages ids :
  totalUnread
    (flat_map (fun o =>
       match get o (users s) with
       | Some otherUser => [conversationWith userId allMessages o otherUser]
       | None => []
       end) ids)
  = Z.of_nat (list_sum (map (fun o =>
      match get o (users s) with
      | Some _ => List.length (filter (unreadFromTo o userId) allMessages)
      | None => 0%nat
      end) ids)).
Proof.
  induction ids as [|o rest IH]; [reflexivity|].
  cbn [flat_map map]. rewrite list_sum_cons, totalUnread_app, IH.
  destruct (get o (users s)); unfold totalUnread at 1; cbn [fold_right];
    rewrite ?conversationWith_unread; lia.
Qed.

(** X13. The unread counts of a user's conversation list never add up to
    more than the user's unread count, and add up to exactly that count when
    every sender of an unread message to the user has a user record (the
    messages of a sender without one are counted, but have no entry). *)
Theorem getConversationsForUser_total_unread (s : MemStorage) (userId : Z) :
  totalUnread (result (getConversationsForUser userId) s)
  <= result (getUnreadMessagesCount userId) s
  /\ ((forall m, In m (values (messages s)) -> unreadFor userId m = true ->
         result (getUser (Message.senderId m)) s <> None) ->
      totalUnread (result (getConversationsForUser userId) s)
      = result (getUnreadMessagesCount userId) s).
Proof.
  rewrite getConversationsForUser_result.
  rewrite (totalUnread_Permutation _ _ (sort_Permutation byLastMessageTime _)).
  rewrite totalUnread_entries.
  unfold result, getUnreadMessagesCount, gets. cbn [fst].
  set (all := values (messages s)).
  assert (Hall : list_sum (map (fun o => List.length (filter (unreadFromTo o userId) all))
                               (interacted userId all))
                 = List.length (filter (unreadFor userId) all)).
  { apply unread_by_sender; [apply interacted_NoDup|].
    intros m Hm Hu. apply interacted_In. exists m. split; [assumption|].
    unfold unreadFor in Hu. apply andb_true_iff in Hu. destruct Hu as [Hr _].
    unfold between. rewrite Hr, Z.eqb_refl. apply orb_true_r. }
  rewrite <- Hall. split.
  - apply inj_le. apply list_sum_le. intros o _.
    destruct (get o (users s)); lia.
  - intros Hsenders. f_equal. f_equal. apply map_ext_in. intros o _.
    destruct (get o (users s)) eqn:E; [reflexivity|].
    destruct (filter (unreadFromTo o userId) all) as [|m l] eqn:Ef; [reflexivity|].
    exfalso.
    assert (Hm : In m (filter (unreadFromTo o userId) all)) by (rewrite Ef; now left).
    apply filter_In in Hm. destruct Hm as [Hin Hu].
    apply (Hsenders m Hin).
    + unfold unreadFromTo in Hu. unfold unreadFor.
      rewrite <- andb_assoc in Hu. apply andb_true_iff in Hu. tauto.
    + unfold unreadFromTo in Hu. rewrite <- andb_assoc in Hu.
      apply andb_true_iff in Hu. destruct Hu as [Hs _]. apply Z.eqb_eq in Hs.
      change (get (Message.senderId m) (users s) = None). rewrite Hs. exact E.
Qed.

Lemma getConversationsForUser_total_unread_witness :
  (forall m, In m (values (messages sampleStore)) -> unreadFor 1 m = true ->
     result (getUser (Message.senderId m)) sampleStore <> None)
  /\ totalUnread (result (getConversationsForUser 1) sampleStore)
     = result (getUnreadMessagesCount 1) sampleStore
  /\ result (getUnreadMessagesCount 1) sampleStore = 2.
Proof.
  assert (H : forall m, In m (values (messages sampleStore)) -> unreadFor 1 m = true ->
                result (getUser (Message.senderId m)) sampleStore <> None).
  { intros m Hin _. cbn in Hin.
    destruct Hin as [<- | [<- | [<- | []]]]; cbn; discriminate. }
  split; [exact H|]. split; [|reflexivity].
  exact (proj2 (getConversationsForUser_total_unread sampleStore 1) H).
Defined.
End ConversationsSpec.

(** * More about the handlers *)

Module ApiSpec.
Import Routes Api JsMap JsMapFacts SortFacts StoreFacts.

Lemma getMessagesBetweenUsers_pure a b s : after (getMessagesBetweenUsers a b) s = s.
Proof. reflexivity. Qed.

Lemma getUnreadMessagesCount_pure r s : after (getUnreadMessagesCount r) s = s.
Proof. reflexivity. Qed.

Lemma getConversationsForUser_after userId s :
  after (getConversationsForUser userId) s = s.
Proof.
  unfold getConversationsForUser. rewrite after_bind, after_gets.
  rewrite after_bind, StorageSpec.buildConversations_pure. reflexivity.
Qed.

(** X14. A request that is refused changes nothing: the three handlers
    that only read never change the store; the thread handler, the message
    handler and the guess handler leave it as it was whenever they answer
    anything but success (no session: 401; a path parameter that is no
    number or a body the schema rejects: 400; an unknown guess target:
    404). *)
Theorem refused_requests_change_nothing
    (parseInt : string -> option Z) (filterMessage : string -> string)
    (toLowerCase : string -> string)
    (s : MemStorage) (now : Z) (req : Request) (userId : string) :
  after (getUsers req) s = s
  /\ after (getConversations req) s = s
  /\ after (getUnreadCount req) s = s
  /\ (forall status message,
        result (getMessages parseInt req userId) s = Refused status message ->
        after (getMessages parseInt req userId) s = s
        /\ (status = 401 /\ user req = None
            \/ status = 400 /\ parseInt userId = None))
  /\ (status (result (postMessage filterMessage now req) s) <> 201 ->
      after (postMessage filterMessage now req) s = s)
  /\ (status (result (postGuess toLowerCase now req) s) <> 201 ->
      after (postGuess toLowerCase now req) s = s).
Proof.
  split; [|split; [|split; [|split; [|split]]]].
  - unfold getUsers. now destruct (user req).
  - unfold getConversations. destruct (user req); [|reflexivity].
    rewrite after_bind, getConversationsForUser_after. reflexivity.
  - unfold getUnreadCount. now destruct (user req).
  - intros st msg. unfold getMessages.
    destruct (user req) as [u|].
    + destruct (parseInt userId) as [o|].
      * rewrite !result_bind. cbn. discriminate.
      * cbn. intros [= <- _]. split; [reflexivity | right; now split].
    + cbn. intros [= <- _]. split; [reflexivity | left; now split].
  - unfold postMessage. destruct (user req); [|reflexivity].
    destruct (parseInsertMessage _); [|reflexivity].
    cbn. intros H. now contradiction H.
  - unfold postGuess. destruct (user req); [|reflexivity].
    destruct (parseInsertGuess _); [|reflexivity].
    rewrite result_bind, after_bind, getUser_pure, getUser_result.
    destruct (get _ (users s)); [|reflexivity].
    cbn. intros H. now contradiction H.
Qed.

Lemma refused_requests_change_nothing_witness :
  result (getMessages (fun _ => None) (guessBy 2 1 "x") "abc") sampleStore
    = Refused 400 "Invalid user ID"
  /\ after (getMessages (fun _ => None) (guessBy 2 1 "x") "abc") sampleStore = sampleStore
  /\ status (result (postGuess Js.asciiLowerCase 40 (guessBy 2 9 "x")) sampleStore) = 404
  /\ after (postGuess Js.asciiLowerCase 40 (guessBy 2 9 "x")) sampleStore = sampleStore.
Proof.
  destruct (refused_requests_change_nothing (fun _ => None) (fun c => c)
              Js.asciiLowerCase sampleStore 40
              (guessBy 2 1 "x") "abc") as [_ [_ [_ [Hm _]]]].
  destruct (refused_requests_change_nothing (fun _ => None) (fun c => c)
              Js.asciiLowerCase sampleStore 40
              (guessBy 2 9 "x") "abc") as [_ [_ [_ [_ [_ Hg]]]]].
  split; [reflexivity|]. split; [exact (proj1 (Hm _ _ eq_refl))|].
  split; [reflexivity|]. apply Hg. discriminate.
Defined.

(** X15. [GET /api/users] lists every stored user but the one who asks,
    once each and in creation order, with the stored [fakeName], avatar and
    [lastActive]; the asking user is never in the list. *)
Theorem getUsers_lists_the_others (s : MemStorage) (req : Request) (userId : Z) :
  StoreOk s ->
  user req = Some userId ->
  exists payload,
    result (getUsers req) s = Sent 200 payload
    /\ map Api.id payload = filter (fun k => negb (k =? userId)) (keys (users s))
    /\ ~ In userId (map Api.id payload)
    /\ forall p, In p payload ->
         exists u, result (getUser (Api.id p)) s = Some u
           /\ Api.fakeName p = User.fakeName u
           /\ Api.avatarType p = User.avatarType u
           /\ Api.avatarId p = User.avatarId u
           /\ Api.lastActive p = User.lastActive u.
Proof.
  intros Hok Hu. unfold getUsers. rewrite Hu.
  rewrite result_bind. cbn [result ret fst].
  eexists. split; [reflexivity|].
  unfold result, getAllUsers, gets. cbn [fst].
  destruct Hok as [[Hnd Hall] _ _].
  split; [|split].
  - rewrite map_map. cbn [Api.id]. unfold values, keys.
    clear Hnd. induction Hall as [|[k u] l [Hid _] _ IH]; [reflexivity|].
    cbn in *. subst k. destruct (User.id u =? userId); cbn; now rewrite IH.
  - rewrite map_map. cbn [Api.id]. rewrite in_map_iff.
    intros [u [Hid Hin]]. apply filter_In in Hin. destruct Hin as [_ Hne].
    rewrite Hid, Z.eqb_refl in Hne. discriminate.
  - intros p Hp. apply in_map_iff in Hp. destruct Hp as [u [<- Hin]].
    apply filter_In in Hin. destruct Hin as [Hin _].
    exists u. cbn. repeat split.
    unfold values in Hin. apply in_map_iff in Hin. destruct Hin as [[k v] [Hv Hin]].
    cbn in Hv. subst v. rewrite Forall_forall in Hall.
    destruct (Hall _ Hin) as [Hid _]. cbn in Hid. rewrite Hid.
    now apply In_get.
Qed.

Lemma getUsers_lists_the_others_witness :
  StoreOk sampleStore
  /\ user (guessBy 2 1 "x") = Some 2
  /\ exists payload,
       result (getUsers (guessBy 2 1 "x")) sampleStore = Sent 200 payload
       /\ map Api.id payload = [1].
Proof.
  split; [exact StorageSpec.sampleStore_ok|]. split; [reflexivity|].
  destruct (getUsers_lists_the_others sampleStore (guessBy 2 1 "x") 2
              StorageSpec.sampleStore_ok eq_refl) as [payload [H1 [H2 _]]].
  exists payload. split; [exact H1 | exact H2].
Defined.
(** What a fetched message shows once the marking loop has run. *)
Lemma current_after_mark s o u m :
  StoreOk s ->
  In m (values (messages s)) ->
  current (with_messages (map (markEntry o u)) s) m = markMessage o u m.
Proof.
  intros [_ [Hnd Hall] _] Hin. unfold current, with_messages. cbn [messages].
  rewrite RunSpec.get_markEntry.
  unfold values in Hin. apply in_map_iff in Hin. destruct Hin as [[k v] [Hv Hin]].
  cbn in Hv. subst v. rewrite Forall_forall in Hall.
  destruct (Hall _ Hin) as [Hid _]. cbn in Hid. rewrite Hid.
  now rewrite (In_get _ _ _ Hnd Hin).
Qed.

(** X16. [GET /api/messages/:userId] by user [u] for counterpart [o]
    answers the whole thread in ascending order of timestamp and marks as
    read what [o] sent to [u]; since the answer is serialised after the
    marking and holds the stored messages themselves, every message from [o]
    to [u] in it already says [read: true]. Afterwards the store is the one
    [markMessagesAsRead o u] leaves, and the unread count of [u] has gone
    down by the unread messages from [o]. *)
Theorem getMessages_marks_and_shows_read
    (parseInt : string -> option Z) (s : MemStorage) (req : Request)
    (userId : string) (u o : Z) :
  StoreOk s ->
  user req = Some u ->
  parseInt userId = Some o ->
  let thread := result (getMessagesBetweenUsers u o) s in
  let s' := after (getMessages parseInt req userId) s in
  result (getMessages parseInt req userId) s = Sent 200 (map (markMessage o u) thread)
  /\ (forall m, In m (map (markMessage o u) thread) ->
        Message.senderId m = o -> Message.receiverId m = u ->
        Message.read m = Js.Bool true)
  /\ map Message.id (map (markMessage o u) thread) = map Message.id thread
  /\ s' = after (markMessagesAsRead o u) s
  /\ result (getUnreadMessagesCount u) s'
     = result (getUnreadMessagesCount u) s - unreadFromToCount o u s.
Proof.
  intros Hok Hu Ho thread s'.
  assert (Hs' : s' = with_messages (map (markEntry o u)) s).
  { subst s'. unfold getMessages. rewrite Hu, Ho.
    rewrite after_bind, getMessagesBetweenUsers_pure, after_bind.
    rewrite markMessagesAsRead_after by apply Hok. reflexivity. }
  split; [|split; [|split; [|split]]].
  - unfold getMessages. rewrite Hu, Ho.
    rewrite result_bind, getMessagesBetweenUsers_pure, result_bind, result_bind.
    rewrite markMessagesAsRead_after by apply Hok.
    cbn [result ret gets fst after snd]. f_equal.
    apply map_ext_in. intros m Hm. apply current_after_mark; [assumption|].
    subst thread. unfold result, getMessagesBetweenUsers, gets in Hm. cbn [fst] in Hm.
    apply sort_In, filter_In in Hm. tauto.
  - intros m Hm Hs Hr. apply in_map_iff in Hm. destruct Hm as [m0 [<- _]].
    unfold markMessage in *. destruct (unreadFromTo o u m0) eqn:E; [reflexivity|].
    unfold unreadFromTo in E. apply Z.eqb_eq in Hs, Hr. rewrite Hs, Hr in E. cbn in E.
    destruct (Message.read m0) as [| |[|]]; cbn in E; try discriminate. reflexivity.
  - rewrite map_map. apply map_ext. intros m. unfold markMessage.
    now destruct (unreadFromTo o u m).
  - rewrite Hs'. symmetry. apply markMessagesAsRead_after. apply Hok.
  - rewrite Hs'. unfold result, getUnreadMessagesCount, gets, unreadFromToCount.
    cbn [fst with_messages messages]. rewrite StorageSpec.values_markEntry.
    pose proof (StorageSpec.unread_split o u (values (messages s))) as H.
    unfold unreadFromTo in H. lia.
Qed.

Lemma getMessages_marks_and_shows_read_witness :
  StoreOk sampleStore
  /\ user (guessBy 1 2 "x") = Some 1
  /\ result (getMessages (fun _ => Some 2) (guessBy 1 2 "x") "2") sampleStore
     = Sent 200 [Message.mk 1 2 1 "hi" 10 (Js.Bool true);
                 Message.mk 2 2 1 "you there?" 20 (Js.Bool true);
                 Message.mk 3 1 2 "yes" 30 (Js.Bool false)]
  /\ result (getUnreadMessagesCount 1)
       (after (getMessages (fun _ => Some 2) (guessBy 1 2 "x") "2") sampleStore)
     = 2 - 2.
Proof.
  split; [exact StorageSpec.sampleStore_ok|]. split; [reflexivity|].
  destruct (getMessages_marks_and_shows_read (fun _ => Some 2) sampleStore
              (guessBy 1 2 "x") "2" 1 2 StorageSpec.sampleStore_ok eq_refl eq_refl)
    as [H1 [_ [_ [_ H2]]]].
  split; [exact H1 | exact H2].
Defined.

(** X17. A 201 from [POST /api/messages] means: there was a session, and
    the body had a numeric [receiverId] and a text [content]; the store then
    is what [createMessage] leaves for the draft made of the session's user
    as sender, that receiver, the filtered content and [read: false], and the
    answer is the message so created. Whatever the body says about
    [senderId], [read], [id] or [timestamp] has no part in it. *)
Theorem postMessage_created
    (filterMessage : string -> string) (s : MemStorage) (now : Z) (req : Request) :
  status (result (postMessage filterMessage now req) s) = 201 ->
  exists senderId receiverId content,
    user req = Some senderId
    /\ prop "receiverId" (body req) = Js.VNumber receiverId
    /\ prop "content" (body req) = Js.VString content
    /\ let draft :=
         InsertMessage.mk senderId receiverId (filterMessage content) (Js.Bool false) in
       result (postMessage filterMessage now req) s
       = mkResponse 201 (StoredMessage (result (createMessage now draft) s))
       /\ after (postMessage filterMessage now req) s = after (createMessage now draft) s
       /\ result (createMessage now draft) s
          = Message.mk (messageCurrentId s) senderId receiverId (filterMessage content)
              now (Js.Bool false).
Proof.
  unfold postMessage.
  destruct (user req) as [senderId|]; [|discriminate].
  unfold parseInsertMessage.
  rewrite RoutesSpec.prop_spread_same, !RoutesSpec.prop_spread_other by reflexivity.
  destruct (prop "receiverId" (body req)) as [| | |receiverId|] eqn:Er; try discriminate.
  destruct (prop "content" (body req)) as [| | | |content] eqn:Ec; try discriminate.
  destruct (prop "read" (body req)); try discriminate; intros _;
    exists senderId, receiverId, content; repeat split.
Qed.

Lemma postMessage_created_witness :
  status (result (postMessage (fun c => c) 40
            (mkRequest (Some 1)
               [("senderId"%string, Js.VNumber 2); ("receiverId"%string, Js.VNumber 2);
                ("content"%string, Js.VString "it is me"); ("read"%string, Js.VBool true)]))
            sampleStore) = 201
  /\ json (result (postMessage (fun c => c) 40
            (mkRequest (Some 1)
               [("senderId"%string, Js.VNumber 2); ("receiverId"%string, Js.VNumber 2);
                ("content"%string, Js.VString "it is me"); ("read"%string, Js.VBool true)]))
            sampleStore)
     = StoredMessage (Message.mk 4 1 2 "it is me" 40 (Js.Bool false)).
Proof.
  split; [reflexivity|].
  destruct (postMessage_created (fun c => c) sampleStore 40
              (mkRequest (Some 1)
                 [("senderId"%string, Js.VNumber 2); ("receiverId"%string, Js.VNumber 2);
                  ("content"%string, Js.VString "it is me"); ("read"%string, Js.VBool true)])
              eq_refl)
    as [sender [receiver [content [Hu [Hr [Hc [H1 _]]]]]]].
  cbn in Hu, Hr, Hc. injection Hu as <-. injection Hr as <-. injection Hc as <-.
  rewrite H1. reflexivity.
Defined.

(** X18. [POST /api/guess] turns down, with 400, a body whose [correct]
    is not a boolean, although the handler works the value out itself; and a
    well-formed guess for a target that has no user record gets 404. *)
Theorem postGuess_rejections
    (toLowerCase : string -> string)
    (s : MemStorage) (now : Z) (req : Request) (guesserId : Z) :
  user req = Some guesserId ->
  ((forall b, prop "correct" (body req) <> Js.VBool b) ->
   result (postGuess toLowerCase now req) s = mkResponse 400 InvalidData)
  /\ (forall targetId guessedName correct,
        prop "targetId" (body req) = Js.VNumber targetId ->
        prop "guessedName" (body req) = Js.VString guessedName ->
        prop "correct" (body req) = Js.VBool correct ->
        result (getUser targetId) s = None ->
        result (postGuess toLowerCase now req) s
        = mkResponse 404 (ErrorMessage "Target user not found")).
Proof.
  intros Hu. unfold postGuess, parseInsertGuess. rewrite Hu.
  rewrite RoutesSpec.prop_spread_same, !RoutesSpec.prop_spread_other by reflexivity.
  split.
  - intros Hc.
    destruct (prop "targetId" (body req)); try reflexivity.
    destruct (prop "guessedName" (body req)); try reflexivity.
    destruct (prop "correct" (body req)) as [| |b| |]; try reflexivity.
    now contradiction (Hc b).
  - intros t n c Ht Hn Hc Hget. rewrite Ht, Hn, Hc.
    cbn [InsertGuess.targetId]. rewrite result_bind, getUser_pure, Hget. reflexivity.
Qed.

Lemma postGuess_rejections_witness :
  user (mkRequest (Some 2) [("targetId"%string, Js.VNumber 1);
                            ("guessedName"%string, Js.VString "Jane Doe")]) = Some 2
  /\ status (result (postGuess Js.asciiLowerCase 40
               (mkRequest (Some 2) [("targetId"%string, Js.VNumber 1);
                                    ("guessedName"%string, Js.VString "Jane Doe")]))
               sampleStore) = 400
  /\ result (getUser 9) sampleStore = None
  /\ status (result (postGuess Js.asciiLowerCase 40 (guessBy 2 9 "Jane Doe")) sampleStore)
     = 404.
Proof.
  split; [reflexivity|].
  destruct (postGuess_rejections Js.asciiLowerCase sampleStore 40
              (mkRequest (Some 2) [("targetId"%string, Js.VNumber 1);
                                   ("guessedName"%string, Js.VString "Jane Doe")])
              2 eq_refl) as [H400 _].
  destruct (postGuess_rejections Js.asciiLowerCase sampleStore 40
              (guessBy 2 9 "Jane Doe") 2 eq_refl)
    as [_ H404].
  split; [|split; [reflexivity|]].
  - rewrite H400; [reflexivity|]. intros b. cbn. discriminate.
  - rewrite (H404 9 "Jane Doe"%string false eq_refl eq_refl eq_refl eq_refl). reflexivity.
Defined.
End ApiSpec.

(** * The request log *)

Module LogSpec.
Import Log.

Lemma finish_assembled method path statusCode duration capturedJsonResponse :
  finish method path statusCode duration capturedJsonResponse
  = if startsWith path [47; 97; 112; 105]%N
    then let full := assembledLine method path statusCode duration capturedJsonResponse in
         Some (if (80 <? List.length full)%nat then firstn 79 full ++ [8230%N] else full)
    else None.
Proof.
  unfold finish, assembledLine, slice.
  destruct (startsWith path [47; 97; 112; 105]%N); [|reflexivity].
  destruct capturedJsonResponse as [json|]; cbn zeta.
  - repeat rewrite <- app_assoc. reflexivity.
  - reflexivity.
Qed.

(** X19. The request log writes a line only for paths that start with
    [/api], and never more than 80 code units of it: a line of up to 80 units
    is written whole; of a longer one the first 79 units are written, followed
    by an ellipsis. *)
Theorem finish_at_most_80
    (method path statusCode duration : text) (capturedJsonResponse : option text) :
  let full := assembledLine method path statusCode duration capturedJsonResponse in
  match finish method path statusCode duration capturedJsonResponse with
  | None => startsWith path [47; 97; 112; 105]%N = false
  | Some line =>
      startsWith path [47; 97; 112; 105]%N = true
      /\ (List.length line <= 80)%nat
      /\ ((List.length full <= 80)%nat -> line = full)
      /\ ((80 < List.length full)%nat ->
          line = firstn 79 full ++ [8230%N] /\ List.length line = 80%nat)
  end.
Proof.
  intros full. rewrite finish_assembled. fold full. clearbody full.
  destruct (startsWith path [47; 97; 112; 105]%N); [|reflexivity].
  cbn zeta. destruct (80 <? List.length full)%nat eqn:E.
  - apply Nat.ltb_lt in E.
    assert (Hlen : List.length (firstn 79 full ++ [8230%N]) = 80%nat).
    { rewrite length_app, length_firstn. cbn [List.length]. lia. }
    repeat split; lia.
  - apply Nat.ltb_ge in E. repeat split; lia.
Qed.

Lemma finish_at_most_80_witness :
  (List.length (assembledLine [71; 69; 84]%N [47; 97; 112; 105; 47; 117]%N [50; 48; 48]%N [53]%N None)
   <= 80)%nat
  /\ finish [71; 69; 84]%N [47; 97; 112; 105; 47; 117]%N [50; 48; 48]%N [53]%N None
     = Some [71; 69; 84; 32; 47; 97; 112; 105; 47; 117; 32; 50; 48; 48;
             32; 105; 110; 32; 53; 109; 115]%N.
Proof.
  assert (Hlen : (List.length
                    (assembledLine [71; 69; 84]%N [47; 97; 112; 105; 47; 117]%N [50; 48; 48]%N [53]%N None)
                  <= 80)%nat) by (cbn; lia).
  split; [exact Hlen|].
  pose proof (finish_at_most_80 [71; 69; 84]%N [47; 97; 112; 105; 47; 117]%N
                [50; 48; 48]%N [53]%N None) as H.
  cbn zeta in H.
  destruct (finish [71; 69; 84]%N [47; 97; 112; 105; 47; 117]%N [50; 48; 48]%N [53]%N None)
    as [line|] eqn:E; [|discriminate H].
  destruct H as [_ [_ [H _]]]. rewrite (H Hlen). reflexivity.
Defined.
End LogSpec.
